(** * CompileTimeEncryption: XorStr.h

    A shallow embedding of [include/CompileTimeEncryption/XorStr.h] and the
    properties of its key derivation, its obfuscation context and its
    decryption routine.

    Conventions of the embedding.
    - [uint64_t] and [size_t] values are integers in [0, 2^64); every
      arithmetic operation of the source that can leave that range is
      followed by its wrap-around ([to_uint64], [to_size_t]).  The header
      needs <immintrin.h>, the target is x86-64.
    - A [char] object is its object representation, a byte in [0, 256).
      Where the source promotes a [char] to [int] the promotion is written
      out ([char_to_int]); whether it sign-extends is a property of the
      platform ([char_is_signed]).
    - An array is a list, read with [!!] and written with [array_set];
      an access out of the array's bounds has no defined result ([None]).
    - A [char const*] is the part of the array that starts at the pointer.
    - Storage that the source leaves uninitialised holds whatever bytes
      were there: every such array takes its prior contents as an argument. *)

From Stdlib Require Import ZArith Lia List.
From stdpp Require Import base option list.

Local Open Scope Z_scope.

(** ** Machine integers and characters *)

Definition to_uint64 (x : Z) : Z := x mod 2 ^ 64.
Definition to_size_t (x : Z) : Z := x mod 2 ^ 64.
Definition to_unsigned (x : Z) : Z := x mod 2 ^ 32.

(** What the C++ implementation leaves to the platform. *)
Class Platform := { char_is_signed : bool }.

(** Integral promotion of a [char] (given by its byte) to [int]. *)
Definition char_to_int `{Platform} (c : Z) : Z :=
  if char_is_signed && (128 <=? c) then c - 256 else c.

(** Conversion of an integer to [char]: the low eight bits. *)
Definition int_to_char (v : Z) : Z := v mod 256.

Definition is_char (c : Z) : Prop := 0 <= c < 256.

(** ** Arrays *)

Definition array_set (a : list Z) (i : Z) (v : Z) : option (list Z) :=
  if (0 <=? i) && (i <? Z.of_nat (length a))
  then Some (<[Z.to_nat i := v]> a)
  else None.

Definition array_get (a : list Z) (i : Z) : option Z :=
  if 0 <=? i then a !! Z.to_nat i else None.

(** [std::array<char, n>] without an initialiser: [n] bytes of whatever the
    storage held. *)
Definition std_array (n : Z) (prior : nat -> Z) : list Z :=
  (fun i => int_to_char (prior i)) <$> seq 0 (Z.to_nat n).

(** The array a string literal denotes: its characters and a terminator. *)
Definition literal (s : list Z) : list Z := s ++ [0].

(** ** namespace CompileTimeEncryption::Detail *)

Module Detail.

(** [template<unsigned N> struct FixedString] *)
Module FixedString.

Record t := mk { N : Z; buf : list Z }.

(** [for (unsigned i = 0; i != N; ++i) buf[i] = s[i];] *)
Fixpoint fill (fuel : nat) (N i : Z) (s buf : list Z) : option (list Z) :=
  if negb (i =? N) then
    match fuel with
    | O => None
    | S fuel' =>
        c ← array_get s i;
        buf' ← array_set buf i c;
        fill fuel' N (to_unsigned (i + 1)) s buf'
    end
  else Some buf.

(** [char buf[N + 1]{}; constexpr FixedString(char const* s)] *)
Definition ctor (N : Z) (s : list Z) : option t :=
  buf ← fill (Z.to_nat N) N 0 s (replicate (Z.to_nat (to_unsigned (N + 1))) 0);
  Some (mk N buf).

(** [constexpr operator char const* () const { return buf; }] *)
Definition to_ptr (fs : t) : list Z := buf fs.

(** [constexpr size_t size() const { return N + 1; }] *)
Definition size (fs : t) : Z := to_unsigned (N fs + 1).

(** [template<unsigned N> FixedString(char const (&)[N])->FixedString<N - 1>;] *)
Definition deduce (arr : list Z) : option t :=
  ctor (to_unsigned (Z.of_nat (length arr) - 1)) arr.

End FixedString.

(** [constexpr uint64_t SplitMix64(uint64_t x)] *)
Definition SplitMix64 (x : Z) : Z :=
  let x := to_uint64 (Z.lxor x (Z.shiftr x 30) * 0xbf58476d1ce4e5b9) in
  let x := to_uint64 (Z.lxor x (Z.shiftr x 27) * 0x94d049bb133111eb) in
  let x := Z.lxor x (Z.shiftr x 31) in
  x.

(** [constexpr uint64_t FNV1(const char* ptr, uint64_t hash = 0xcbf29ce484222325)] *)
Fixpoint FNV1 `{Platform} (ptr : list Z) (hash : Z) : option Z :=
  match ptr with
  | [] => None
  | c :: ptr' =>
      if negb (c =? 0)
      then FNV1 ptr' (Z.lxor (to_uint64 (hash * 0x100000001b3))
                             (to_uint64 (char_to_int c)))
      else Some hash
  end.

Definition FNV1_default_hash : Z := 0xcbf29ce484222325.

(** [constexpr uint64_t Random64(uint64_t lastVal)] *)
Definition MULTIPLIER : Z := 6364136223846793005.
Definition INCREMENT : Z := 1442695040888963407.

Definition Random64 (lastVal : Z) : Z :=
  to_uint64 (to_uint64 (MULTIPLIER * lastVal) + INCREMENT).

(** [for (size_t i = 0; i < (index / sizeof(seed)); ++i) seed = Random64(seed);] *)
Fixpoint RandomChar_loop (fuel : nat) (i bound seed : Z) : Z :=
  match fuel with
  | O => seed
  | S fuel' =>
      if i <? bound
      then RandomChar_loop fuel' (to_size_t (i + 1)) bound (Random64 seed)
      else seed
  end.

(** [constexpr char RandomChar(uint64_t seed, size_t index)] *)
Definition RandomChar (seed index : Z) : Z :=
  let seed := RandomChar_loop (Z.to_nat (index / 8)) 0 (index / 8) seed in
  int_to_char (Z.land (Z.shiftr seed (index mod 8 * 8)) 0xff).

(** [template<FixedString String, FixedString FileName, size_t LineNumber>
    constexpr uint64_t RandomSeed()]; [DATE_TIME] is the text of
    [__DATE__ __TIME__]. *)
Definition RandomSeed `{Platform} (String FileName : FixedString.t)
    (LineNumber : Z) (DATE_TIME : list Z) : option Z :=
  h_string ← FNV1 (FixedString.buf String) FNV1_default_hash;
  h_file ← FNV1 (FixedString.to_ptr FileName) FNV1_default_hash;
  h_build ← FNV1 (literal DATE_TIME) FNV1_default_hash;
  Some (Z.lxor (Z.lxor (Z.lxor h_string h_file) h_build) (SplitMix64 LineNumber)).

(** [template<size_t Alignment> constexpr size_t Align(size_t val)] *)
Definition Align (Alignment val : Z) : Z :=
  if negb (val mod Alignment =? 0)
  then to_size_t (Z.lor val (to_size_t (Alignment - 1)) + 1)
  else val.

(** [template<auto Start, auto End, auto Inc, typename F>
    constexpr void constexpr_for(F&& f)], with the types the header gives
    the [auto] parameters in [constexpr_for<0, String.size(), 1>]: [Start]
    and [Inc] are [int], [End] is [size_t].  [Start < End] therefore
    compares [Start] converted to [size_t], and [Start + Inc] is a sum of
    two [int]s (a sum that leaves [int] is not a constant expression; no
    result is modelled for it).  Each index is one nested instantiation;
    [depth] bounds how many instantiations of [constexpr_for] itself may
    nest, whatever else the compiler counts towards its own limit. *)
Fixpoint constexpr_for {St : Type} (depth : nat) (Start End Inc : Z)
    (f : Z -> St -> option St) (st : St) : option St :=
  match depth with
  | O => None
  | S depth' =>
      if to_size_t Start <? End
      then st' ← f Start st; constexpr_for depth' (Start + Inc) End Inc f st'
      else Some st
  end.

End Detail.

(** ** namespace CompileTimeEncryption *)

Import Detail.

(** [sizeof(__m128)] *)
Definition sizeof_m128 : Z := 16.

(** [template<Detail::FixedString String, Detail::FixedString FileName,
    size_t LineNumber> class XorContext]: the template arguments and the two
    private members. *)
Record XorContext := mkXorContext {
  String : FixedString.t;
  FileName : FixedString.t;
  LineNumber : Z;
  m_key : list Z;
  m_encBuf : list Z
}.

(** The length of [m_key], of [m_encBuf] and of the array [Decrypt] returns:
    [Detail::Align<sizeof(__m128)>(String.size())]. *)
Definition buffer_size (String : FixedString.t) : Z :=
  Align sizeof_m128 (FixedString.size String).

(** The body of the lambda the constructor passes to [constexpr_for]:
    [m_key[i] = RandomChar(seed, i); m_encBuf[i] = m_key[i] ^ String.buf[i];] *)
Definition XorContext_body `{Platform} (String : FixedString.t) (seed : Z)
    (i : Z) (members : list Z * list Z) : option (list Z * list Z) :=
  m_key ← array_set members.1 i (RandomChar seed i);
  k ← array_get m_key i;
  c ← array_get (FixedString.buf String) i;
  m_encBuf ← array_set members.2 i (int_to_char (Z.lxor (char_to_int k) (char_to_int c)));
  Some (m_key, m_encBuf).

(** The byte the constructor leaves in [m_encBuf[i]]: the value of
    [m_key[i] ^ String.buf[i]] converted to [char]. *)
Definition enc_byte `{Platform} (k c : Z) : Z :=
  int_to_char (Z.lxor (char_to_int k) (char_to_int c)).

(** [constexpr XorContext() noexcept].  [key0] and [enc0] are the prior
    contents of the storage of [m_key] and [m_encBuf], which have no
    initialiser. *)
Definition XorContext_ctor `{Platform} (depth : nat)
    (String FileName : FixedString.t) (LineNumber : Z) (DATE_TIME : list Z)
    (key0 enc0 : nat -> Z) : option XorContext :=
  seed ← RandomSeed String FileName LineNumber DATE_TIME;
  members ← constexpr_for depth 0 (FixedString.size String) 1
              (XorContext_body String seed)
              (std_array (buffer_size String) key0,
               std_array (buffer_size String) enc0);
  Some (mkXorContext String FileName LineNumber members.1 members.2).

(** [_mm_load_ps]: sixteen bytes from an address that is a multiple of 16
    (the arrays are [alignas(sizeof(__m128))], so the offset decides). *)
Definition _mm_load_ps (mem : list Z) (off : Z) : option (list Z) :=
  if (off mod sizeof_m128 =? 0) && (0 <=? off)
     && (off + sizeof_m128 <=? Z.of_nat (length mem))
  then Some (take 16 (drop (Z.to_nat off) mem))
  else None.

(** [_mm_xor_ps]: the bitwise exclusive or of two 128-bit registers, byte by
    byte. *)
Definition _mm_xor_ps (a b : list Z) : list Z := zip_with Z.lxor a b.

(** [_mm_store_ps]: sixteen bytes to an address that is a multiple of 16. *)
Definition _mm_store_ps (mem : list Z) (off : Z) (v : list Z) : option (list Z) :=
  if (off mod sizeof_m128 =? 0) && (0 <=? off)
     && (off + sizeof_m128 <=? Z.of_nat (length mem))
  then Some (take (Z.to_nat off) mem ++ v ++ drop (Z.to_nat (off + sizeof_m128)) mem)
  else None.

(** [for (size_t i = 0; i < String.size(); i += sizeof(__m128)) _mm_store_ps(...)] *)
Fixpoint Decrypt_loop (fuel : nat) (i : Z) (ctx : XorContext) (result : list Z)
    : option (list Z) :=
  if i <? FixedString.size (String ctx) then
    match fuel with
    | O => None
    | S fuel' =>
        k ← _mm_load_ps (m_key ctx) i;
        e ← _mm_load_ps (m_encBuf ctx) i;
        result' ← _mm_store_ps result i (_mm_xor_ps k e);
        Decrypt_loop fuel' (to_size_t (i + sizeof_m128)) ctx result'
    end
  else Some result.

(** [std::array<char, ...> Decrypt() const noexcept].  [result0] is the prior
    contents of the storage of the local [result]. *)
Definition Decrypt (ctx : XorContext) (result0 : nat -> Z) : option (list Z) :=
  Decrypt_loop (Z.to_nat (FixedString.size (String ctx))) 0 ctx
    (std_array (buffer_size (String ctx)) result0).

(** ** The macros *)

(** What a use of the macro is replaced with. *)
Inductive expansion :=
| PlainLiteral (str : list Z)
| DecryptData (str file : list Z) (line : Z)
| DecryptValue (str file : list Z) (line : Z).

(** [#define XorStr(str) XorContext<str, __FILE__, __LINE__>().Decrypt().data()].
    [CTE_ENCRYPTSTRINGS] tells whether the build defines the macro of that
    name (CMakeLists.txt defines it when the option ENCRYPT_STRINGS is ON);
    the header has no conditional on it. *)
Definition XorStr (CTE_ENCRYPTSTRINGS : bool) (str FILE : list Z) (LINE : Z)
    : expansion :=
  DecryptData str FILE LINE.

(** [#define XorStr_(str) XorContext<str, __FILE__, __LINE__>().Decrypt()] *)
Definition XorStr_ (CTE_ENCRYPTSTRINGS : bool) (str FILE : list Z) (LINE : Z)
    : expansion :=
  DecryptValue str FILE LINE.

(** [XorContext<str, file, line>()]: both string template arguments go
    through the deduction guide of [FixedString]. *)
Definition XorContext_temporary `{Platform} (depth : nat) (str file : list Z)
    (line : Z) (DATE_TIME : list Z) (key0 enc0 : nat -> Z) : option XorContext :=
  String ← FixedString.deduce (literal str);
  FileName ← FixedString.deduce (literal file);
  XorContext_ctor depth String FileName line DATE_TIME key0 enc0.

(** [XorContext<str, file, line>().Decrypt()] *)
Definition decrypt_temporary `{Platform} (depth : nat) (str file : list Z)
    (line : Z) (DATE_TIME : list Z) (key0 enc0 result0 : nat -> Z)
    : option (list Z) :=
  ctx ← XorContext_temporary depth str file line DATE_TIME key0 enc0;
  Decrypt ctx result0.

(** The bytes an expansion evaluates to ([.data()] points at the first byte
    of the array). *)
Definition eval `{Platform} (depth : nat) (DATE_TIME : list Z)
    (key0 enc0 result0 : nat -> Z) (e : expansion) : option (list Z) :=
  match e with
  | PlainLiteral str => Some (literal str)
  | DecryptData str file line =>
      decrypt_temporary depth str file line DATE_TIME key0 enc0 result0
  | DecryptValue str file line =>
      decrypt_temporary depth str file line DATE_TIME key0 enc0 result0
  end.

(** ** Concrete inputs *)

#[export] Instance x86_64 : Platform := {| char_is_signed := true |}.

(** "hello", "a.cpp" and a build stamp "Mar 18 202111:48:00". *)
Definition hello : list Z := [104; 101; 108; 108; 111].
Definition a_cpp : list Z := [97; 46; 99; 112; 112].
Definition build_stamp : list Z :=
  [77; 97; 114; 32; 49; 56; 32; 50; 48; 50; 49; 49; 49; 58; 52; 56; 58; 48; 48].

(** Storage that was last filled with the byte 0xCC. *)
Definition stale : nat -> Z := fun _ => 0xCC.

(** ** The vocabulary of the specification *)

(** One linear-congruential iteration. *)
Definition Step (state : Z) : Z :=
  (state * 6364136223846793005 + 1442695040888963407) mod 2 ^ 64.

(** Byte [k] of a state, the least significant byte being byte 0. *)
Definition byte_of (state k : Z) : Z := (state / 256 ^ k) mod 256.

(** [ByteAt(seed, index)]: [floor(index / 8)] steps, then byte [index mod 8]. *)
Definition ByteAt (seed index : Z) : Z :=
  byte_of (Nat.iter (Z.to_nat (index / 8)) Step seed) (index mod 8).

Definition ceil_div (a b : Z) : Z := (a + b - 1) / b.

(** The keystream byte at [i] after a given number of generator steps. *)
Definition keystream_byte (steps seed i : Z) : Z :=
  Z.land (Z.shiftr (Nat.iter (Z.to_nat steps) Random64 seed) (8 * (i mod 8))) 255.

(** [n] rounded up to the next multiple of [m]. *)
Definition round_up (m n : Z) : Z := m * ceil_div n m.

(** The characters of a null-terminated sequence: those before the first
    null. *)
Fixpoint c_str (ptr : list Z) : list Z :=
  match ptr with
  | [] => []
  | c :: ptr' => if c =? 0 then [] else c :: c_str ptr'
  end.

(** What [FNV1] returns on a null-terminated sequence, as a fold over the
    characters before the first null: multiply by the FNV prime, then xor
    the character in as the source's expression converts it ([char] to
    [int] to 64 bits).  It is the published FNV-1 only where that
    conversion leaves the byte unchanged. *)
Definition Fnv1 `{Platform} (bytes : list Z) : Z :=
  fold_left (fun hash c => Z.lxor (hash * 1099511628211 mod 2 ^ 64)
                                  (char_to_int c mod 2 ^ 64))
            (c_str bytes) 14695981039346656037.

(** 64-bit FNV-1 of a sequence of octets, as published: starting from the
    offset basis, for each octet multiply by the FNV prime modulo 2^64,
    then xor the octet in. *)
Definition fnv1_octets (octets : list Z) : Z :=
  fold_left (fun hash o => Z.lxor (hash * 1099511628211 mod 2 ^ 64) o)
            octets 14695981039346656037.

(** What [RandomSeed] returns, in terms of [Fnv1]. *)
Definition DeriveSeed `{Platform} (string fileName : list Z) (lineNumber : Z)
    (buildTimestamp : list Z) : Z :=
  Z.lxor (Z.lxor (Z.lxor (Fnv1 string) (Fnv1 fileName)) (Fnv1 buildTimestamp))
         (SplitMix64 lineNumber).

(** [DeriveSeed(string, fileName, lineNumber, buildTimestamp)] as the
    specification words it: the xor of the published FNV-1 of the three
    null-terminated byte sequences and of the mixer applied to the line
    number. *)
Definition DeriveSeed_published (string fileName : list Z) (lineNumber : Z)
    (buildTimestamp : list Z) : Z :=
  Z.lxor (Z.lxor (Z.lxor (fnv1_octets (c_str string)) (fnv1_octets (c_str fileName)))
                 (fnv1_octets (c_str buildTimestamp)))
         (SplitMix64 lineNumber).

(** A string literal the template machinery accepts: characters, and a
    length whose successor fits [unsigned]. *)
Definition fits (s : list Z) : Prop := Z.of_nat (length s) + 1 < 2 ^ 32.

(** What the type of the members says of their length: both are
    [std::array<char, Align<sizeof(__m128)>(String.size())>]. *)
Definition XorContext_sized (ctx : XorContext) : Prop :=
  Z.of_nat (length (m_key ctx)) = buffer_size (String ctx) /\
  Z.of_nat (length (m_encBuf ctx)) = buffer_size (String ctx).

(** ** Further vocabulary *)

(** The multiplicative inverse of [MULTIPLIER] modulo 2^64, and the step
    that undoes [Random64]. *)
Definition MULTIPLIER_inverse : Z := 13877824140714322085.

Definition Random64_inv (val : Z) : Z :=
  ((val - INCREMENT) * MULTIPLIER_inverse) mod 2 ^ 64.

(** The eight keystream bytes with indices [8 * q] to [8 * q + 7]. *)
Definition keystream_block (seed q : Z) : list Z :=
  (fun r => RandomChar seed (8 * q + r)) <$> seqZ 0 8.

(** The indices [Start], [Start + Inc], [Start + 2 * Inc], ... below [End]. *)
Definition visited (Start End Inc : Z) : list Z :=
  (fun k => Start + k * Inc) <$> seqZ 0 (ceil_div (End - Start) Inc).

(** The indices [Start], [Start + Inc], [Start + 2 * Inc], ... that are not
    negative, for a negative [Inc]. *)
Definition visited_down (Start Inc : Z) : list Z :=
  (fun k => Start + k * Inc) <$> seqZ 0 (Start / (- Inc) + 1).

(** ** Integers and bytes *)

Lemma to_size_t_small x : 0 <= x < 2 ^ 64 -> to_size_t x = x.
Proof. intros Hx. unfold to_size_t. now apply Z.mod_small. Qed.

Lemma to_unsigned_small x : 0 <= x < 2 ^ 32 -> to_unsigned x = x.
Proof. intros Hx. unfold to_unsigned. now apply Z.mod_small. Qed.

Lemma int_to_char_is_char v : is_char (int_to_char v).
Proof. unfold is_char, int_to_char. apply Z.mod_pos_bound. lia. Qed.

Lemma int_to_char_small c : is_char c -> int_to_char c = c.
Proof. intros Hc. unfold int_to_char. now apply Z.mod_small. Qed.

Lemma mod256_lxor a b : Z.lxor a b mod 256 = Z.lxor (a mod 256) (b mod 256).
Proof.
  change 256 with (2 ^ 8).
  rewrite <- !Z.land_ones by lia.
  apply Z.bits_inj'. intros n Hn.
  rewrite !Z.land_spec, !Z.lxor_spec, !Z.land_spec.
  destruct (Z.testbit (Z.ones 8) n); rewrite ?andb_true_r, ?andb_false_r; reflexivity.
Qed.

Lemma char_to_int_mod256 `{Platform} c : is_char c -> char_to_int c mod 256 = c.
Proof.
  intros Hc. unfold char_to_int, is_char in *.
  destruct (char_is_signed && (128 <=? c)).
  - replace (c - 256) with (c + (-1) * 256) by lia.
    rewrite Z.mod_add by lia. apply Z.mod_small. lia.
  - apply Z.mod_small. lia.
Qed.

(** What [m_key[i] ^ String.buf[i]], stored in a [char], leaves in memory. *)
Lemma xor_chars `{Platform} k c :
  is_char k -> is_char c ->
  int_to_char (Z.lxor (char_to_int k) (char_to_int c)) = Z.lxor k c.
Proof.
  intros Hk Hc. unfold int_to_char.
  rewrite mod256_lxor, !char_to_int_mod256; auto.
Qed.

Lemma lxor_cancel k c : Z.lxor k (Z.lxor k c) = c.
Proof. now rewrite <- Z.lxor_assoc, Z.lxor_nilpotent, Z.lxor_0_l. Qed.

Lemma Random64_Step x : Random64 x = Step x.
Proof.
  unfold Random64, Step, to_uint64, MULTIPLIER, INCREMENT.
  rewrite Zplus_mod_idemp_l. f_equal. lia.
Qed.

Lemma byte_of_shift x k :
  0 <= k -> Z.land (Z.shiftr x (k * 8)) 255 = byte_of x k.
Proof.
  intros Hk. unfold byte_of.
  change 255 with (Z.ones 8). rewrite Z.land_ones by lia.
  rewrite Z.shiftr_div_pow2 by lia.
  replace (2 ^ (k * 8)) with (256 ^ k); [reflexivity|].
  change 256 with (2 ^ 8). rewrite <- Z.pow_mul_r by lia. f_equal. lia.
Qed.

(** ** The keystream *)

(** With enough fuel the loop of [RandomChar] applies [Random64] once per
    index from [i] to [bound]. *)
Lemma RandomChar_loop_iter fuel : forall i bound seed,
  0 <= i <= bound -> bound < 2 ^ 64 -> (Z.to_nat (bound - i) <= fuel)%nat ->
  RandomChar_loop fuel i bound seed = Nat.iter (Z.to_nat (bound - i)) Random64 seed.
Proof.
  induction fuel as [|fuel IH]; intros i bound seed Hi Hb Hfuel; simpl.
  - replace (Z.to_nat (bound - i)) with 0%nat by lia. reflexivity.
  - destruct (Z.ltb_spec i bound) as [Hlt|Hge].
    + rewrite to_size_t_small by lia.
      rewrite IH by lia.
      replace (Z.to_nat (bound - i)) with (S (Z.to_nat (bound - (i + 1)))) by lia.
      now rewrite Nat.iter_succ_r.
    + replace (Z.to_nat (bound - i)) with 0%nat by lia. reflexivity.
Qed.

(** The loop does not depend on the fuel it is given beyond the trip count. *)
Lemma RandomChar_loop_fuel fuel fuel' i bound seed :
  0 <= i <= bound -> bound < 2 ^ 64 ->
  (Z.to_nat (bound - i) <= fuel)%nat -> (Z.to_nat (bound - i) <= fuel')%nat ->
  RandomChar_loop fuel i bound seed = RandomChar_loop fuel' i bound seed.
Proof. intros. now rewrite !RandomChar_loop_iter. Qed.

Lemma RandomChar_steps seed index :
  0 <= index < 2 ^ 64 ->
  RandomChar seed index =
  Z.land (Z.shiftr (Nat.iter (Z.to_nat (index / 8)) Random64 seed) (index mod 8 * 8)) 255.
Proof.
  intros Hi. unfold RandomChar.
  assert (0 <= index / 8 < 2 ^ 64).
  { split; [apply Z.div_pos; lia|]. apply Z.div_lt_upper_bound; lia. }
  rewrite RandomChar_loop_iter by lia.
  rewrite Z.sub_0_r.
  assert (0 <= index mod 8 < 8) by (apply Z.mod_pos_bound; lia).
  rewrite byte_of_shift by lia.
  apply int_to_char_small. unfold is_char, byte_of. apply Z.mod_pos_bound. lia.
Qed.

Lemma iter_Random64_Step n seed : Nat.iter n Random64 seed = Nat.iter n Step seed.
Proof. induction n as [|n IH]; simpl; [reflexivity|]. now rewrite IH, Random64_Step. Qed.

(** C4, as the code has it: the keystream byte at index [i] is taken from the
    state after [floor(i / 8)] applications of the generator step to the seed,
    not [ceil(i / 8)]. *)
Theorem RandomChar_floor_steps seed i :
  0 <= i < 2 ^ 64 ->
  RandomChar seed i = keystream_byte (i / 8) seed i.
Proof.
  intros Hi. rewrite RandomChar_steps by assumption.
  unfold keystream_byte. now rewrite (Z.mul_comm 8).
Qed.

(** C4, as stated, fails at index 1 of the keystream of seed 0: the code
    takes byte 1 of the seed itself, which is 0, where one step of the
    generator would give byte 1 of the increment, 0x81. *)
Lemma RandomChar_not_ceil_steps :
  RandomChar 0 1 <> keystream_byte (ceil_div 1 8) 0 1.
Proof. vm_compute. discriminate. Qed.

(** C5: [RandomChar seed index] is byte [index mod 8], least significant
    first, of the state reached from [seed] by [floor(index / 8)] iterations
    of [state * 6364136223846793005 + 1442695040888963407 (mod 2^64)]; it is
    computed from [seed] and [index] alone. *)
Theorem RandomChar_ByteAt seed index :
  0 <= index < 2 ^ 64 ->
  RandomChar seed index = ByteAt seed index.
Proof.
  intros Hi. rewrite RandomChar_steps by assumption.
  assert (0 <= index mod 8 < 8) by (apply Z.mod_pos_bound; lia).
  rewrite byte_of_shift by lia.
  unfold ByteAt. now rewrite iter_Random64_Step.
Qed.

(** ** FixedString *)

Lemma array_get_lookup (a : list Z) (i : nat) : array_get a (Z.of_nat i) = a !! i.
Proof.
  unfold array_get. destruct (Z.leb_spec 0 (Z.of_nat i)); [|lia].
  now rewrite Nat2Z.id.
Qed.

Lemma array_set_insert (a : list Z) (i : nat) v :
  (i < length a)%nat -> array_set a (Z.of_nat i) v = Some (<[i := v]> a).
Proof.
  intros Hi. unfold array_set.
  destruct (Z.leb_spec 0 (Z.of_nat i)); [|lia].
  destruct (Z.ltb_spec (Z.of_nat i) (Z.of_nat (length a))); [|lia].
  simpl. now rewrite Nat2Z.id.
Qed.

(** The copy loop, started at index [i] on a buffer that already holds the
    first [i] characters of [s] followed by zeros, ends with the first [n]
    characters of [s] followed by one zero. *)
Lemma fill_spec (s : list Z) (n : nat) : forall (fuel i : nat),
  (n <= length s)%nat -> Z.of_nat n + 1 < 2 ^ 32 ->
  (i <= n)%nat -> (n - i <= fuel)%nat ->
  FixedString.fill fuel (Z.of_nat n) (Z.of_nat i) s
    (take i s ++ replicate (n + 1 - i) 0)
  = Some (take n s ++ [0]).
Proof.
  induction fuel as [|fuel IH]; intros i Hs Hn Hi Hfuel; simpl.
  - destruct (Z.eqb_spec (Z.of_nat i) (Z.of_nat n)) as [Heq|Hne]; [|lia].
    simpl. apply Nat2Z.inj in Heq. subst i.
    now replace (n + 1 - n)%nat with 1%nat by lia.
  - destruct (Z.eqb_spec (Z.of_nat i) (Z.of_nat n)) as [Heq|Hne]; simpl.
    + apply Nat2Z.inj in Heq. subst i.
      now replace (n + 1 - n)%nat with 1%nat by lia.
    + assert (i < n)%nat as Hlt by lia.
      rewrite array_get_lookup.
      destruct (lookup_lt_is_Some_2 s i) as [c Hc]; [lia|].
      rewrite Hc. simpl.
      assert (length (take i s) = i) as Hlen by (rewrite length_take; lia).
      rewrite array_set_insert
        by (rewrite length_app, Hlen, length_replicate; lia).
      simpl.
      rewrite to_unsigned_small by lia.
      replace (Z.of_nat i + 1) with (Z.of_nat (S i)) by lia.
      replace (<[i:=c]> (take i s ++ replicate (n + 1 - i) 0))
        with (take (S i) s ++ replicate (n + 1 - S i) 0).
      { apply IH; lia. }
      rewrite (take_S_r s i c Hc).
      replace (n + 1 - i)%nat with (S (n + 1 - S i)) by lia.
      rewrite insert_app_r_alt by lia.
      rewrite Hlen, Nat.sub_diag. simpl.
      now rewrite <- app_assoc.
Qed.

Lemma ctor_spec (s : list Z) (n : nat) :
  (n <= length s)%nat -> Z.of_nat n + 1 < 2 ^ 32 ->
  FixedString.ctor (Z.of_nat n) s = Some (FixedString.mk (Z.of_nat n) (take n s ++ [0])).
Proof.
  intros Hs Hn. unfold FixedString.ctor.
  rewrite to_unsigned_small by lia.
  rewrite Nat2Z.id.
  replace (Z.to_nat (Z.of_nat n + 1)) with (n + 1 - 0)%nat by lia.
  change (replicate (n + 1 - 0) 0) with (take 0 s ++ replicate (n + 1 - 0) 0).
  change 0 with (Z.of_nat 0) at 1.
  rewrite fill_spec by lia. reflexivity.
Qed.

(** A string literal becomes the [FixedString] of its characters. *)
Lemma deduce_literal (s : list Z) :
  fits s ->
  FixedString.deduce (literal s)
  = Some (FixedString.mk (Z.of_nat (length s)) (literal s)).
Proof.
  unfold fits. intros Hs. unfold FixedString.deduce, literal.
  rewrite length_app. simpl.
  replace (Z.of_nat (length s + 1) - 1) with (Z.of_nat (length s)) by lia.
  rewrite to_unsigned_small by lia.
  rewrite ctor_spec by (rewrite ?length_app; simpl; lia).
  now rewrite take_app_length.
Qed.

Section Hashing.
Context `{Platform}.

(** [FNV1] stops at the first null and folds the characters before it. *)
Lemma FNV1_terminated (ptr : list Z) : forall hash,
  0 ∈ ptr ->
  FNV1 ptr hash
  = Some (fold_left (fun hash c => Z.lxor (hash * 1099511628211 mod 2 ^ 64)
                                          (char_to_int c mod 2 ^ 64))
                    (c_str ptr) hash).
Proof.
  induction ptr as [|c ptr IH]; intros hash Hin.
  - now apply elem_of_nil in Hin.
  - simpl. destruct (Z.eqb_spec c 0) as [Hc|Hc]; simpl; [reflexivity|].
    apply elem_of_cons in Hin as [Hin|Hin]; [congruence|].
    now rewrite IH.
Qed.

(** Without a null in the array, [FNV1] reads past its end. *)
Lemma FNV1_unterminated (ptr : list Z) : forall hash,
  0 ∉ ptr -> FNV1 ptr hash = None.
Proof.
  induction ptr as [|c ptr IH]; intros hash Hin; [reflexivity|].
  simpl. apply not_elem_of_cons in Hin as [Hc Hin].
  destruct (Z.eqb_spec c 0) as [Heq|_]; [congruence|]. simpl. now apply IH.
Qed.

Lemma c_str_app_null (s rest : list Z) : c_str (s ++ 0 :: rest) = c_str s.
Proof.
  induction s as [|c s IH]; simpl; [reflexivity|].
  destruct (c =? 0); [reflexivity|]. now rewrite IH.
Qed.

Lemma FNV1_literal (s : list Z) :
  FNV1 (literal s) FNV1_default_hash = Some (Fnv1 s).
Proof.
  unfold literal, Fnv1. rewrite FNV1_terminated.
  - now rewrite c_str_app_null.
  - apply elem_of_app. right. apply list_elem_of_singleton. reflexivity.
Qed.

(** Where no character is promoted to a negative [int] (the platform's
    [char] is unsigned, or the text is 7-bit), [FNV1] is the published
    FNV-1 of the characters before the null. *)
Lemma Fnv1_octets (s : list Z) :
  Forall is_char s ->
  char_is_signed = false \/ Forall (fun c => c < 128) s ->
  Fnv1 s = fnv1_octets (c_str s).
Proof.
  intros Hs Hlow. unfold Fnv1, fnv1_octets.
  generalize 14695981039346656037.
  induction s as [|c s IH]; intros h; simpl; [reflexivity|].
  destruct (c =? 0); [reflexivity|]. simpl.
  apply Forall_cons in Hs as [Hc Hs].
  assert (char_to_int c mod 2 ^ 64 = c) as ->.
  { unfold char_to_int, is_char in *.
    destruct Hlow as [->|Hlow]; simpl.
    - apply Z.mod_small. lia.
    - apply Forall_cons in Hlow as [Hlow _].
      destruct (Z.leb_spec 128 c); [lia|].
      rewrite andb_false_r. apply Z.mod_small. lia. }
  apply IH; [assumption|].
  destruct Hlow as [?|Hlow]; [now left|right].
  now apply Forall_cons in Hlow as [_ ?].
Qed.

(** C10: a [FixedString<N>] constructed from [N] characters holds them in
    [buf[0..N-1]], holds the null terminator in [buf[N]], has [N + 1]
    elements and reports [size() = N + 1]; [FNV1] on it therefore returns a
    hash, while on the same characters without the terminator (and without a
    null among them) it would run past the array. *)
Theorem FixedString_null_terminated (n : nat) (s : list Z) :
  length s = n -> Z.of_nat n + 1 < 2 ^ 32 ->
  exists fs,
    FixedString.ctor (Z.of_nat n) s = Some fs /\
    (forall i, 0 <= i < Z.of_nat n ->
       array_get (FixedString.buf fs) i = array_get s i) /\
    array_get (FixedString.buf fs) (Z.of_nat n) = Some 0 /\
    Z.of_nat (length (FixedString.buf fs)) = Z.of_nat n + 1 /\
    FixedString.size fs = Z.of_nat n + 1 /\
    (forall hash, is_Some (FNV1 (FixedString.to_ptr fs) hash)) /\
    (forall hash, 0 ∉ s -> FNV1 s hash = None).
Proof.
  intros Hlen Hn. eexists. split; [apply ctor_spec; lia|].
  rewrite <- Hlen, firstn_all. simpl.
  split; [|split; [|split; [|split; [|split]]]].
  - intros i Hi. unfold array_get.
    destruct (0 <=? i); [|reflexivity].
    apply lookup_app_l. lia.
  - rewrite array_get_lookup. now rewrite list_lookup_middle.
  - rewrite length_app. simpl. lia.
  - unfold FixedString.size. simpl. apply to_unsigned_small. lia.
  - intros hash. unfold FixedString.to_ptr. simpl.
    rewrite FNV1_terminated; [eauto|].
    apply elem_of_app. right. apply list_elem_of_singleton. reflexivity.
  - intros hash. apply FNV1_unterminated.
Qed.

End Hashing.

(** ** Buffer sizes *)

Lemma lor_15 val : Z.lor val 15 = val - val mod 16 + 15.
Proof.
  pose proof (Z.add_lor_land val 15) as Hadd.
  change 15 with (Z.ones 4) in Hadd at 2.
  rewrite Z.land_ones in Hadd by lia.
  change (2 ^ 4) with 16 in Hadd. lia.
Qed.

Lemma Align_round_up val :
  0 <= val < 2 ^ 64 - 16 -> Align sizeof_m128 val = round_up 16 val.
Proof.
  intros Hval. unfold Align, sizeof_m128, round_up, ceil_div.
  rewrite (to_size_t_small (16 - 1)) by lia.
  change (16 - 1) with 15. change (16 + 16 - 1) with 31.
  destruct (Z.eqb_spec (val mod 16) 0) as [Hz|Hnz]; simpl.
  - Z.div_mod_to_equations. lia.
  - rewrite lor_15.
    assert (0 <= val mod 16 < 16) by (apply Z.mod_pos_bound; lia).
    rewrite to_size_t_small by lia.
    Z.div_mod_to_equations. lia.
Qed.

(** [round_up 16 n] is the least multiple of 16 that is at least [n]. *)
Lemma round_up_16_least n :
  round_up 16 n mod 16 = 0 /\ n <= round_up 16 n < n + 16.
Proof.
  unfold round_up, ceil_div. split.
  - rewrite Z.mul_comm. apply Z_mod_mult.
  - Z.div_mod_to_equations. lia.
Qed.

Lemma size_range (fs : FixedString.t) : 0 <= FixedString.size fs < 2 ^ 32.
Proof. unfold FixedString.size, to_unsigned. apply Z.mod_pos_bound. lia. Qed.

Lemma buffer_size_round_up (fs : FixedString.t) :
  buffer_size fs = round_up 16 (FixedString.size fs).
Proof.
  unfold buffer_size. apply Align_round_up.
  pose proof (size_range fs). lia.
Qed.

Lemma length_std_array n prior : 0 <= n -> Z.of_nat (length (std_array n prior)) = n.
Proof. intros Hn. unfold std_array. rewrite length_fmap, length_seq. lia. Qed.

Lemma lookup_std_array n prior (i : nat) :
  Z.of_nat i < n -> std_array n prior !! i = Some (int_to_char (prior i)).
Proof.
  intros Hi. unfold std_array.
  rewrite list_lookup_fmap, lookup_seq_lt by lia. reflexivity.
Qed.

(** ** The constructor of XorContext *)

Section Context_construction.
Context `{Platform}.

Lemma XorContext_body_spec (Str : FixedString.t) seed (i : nat) (k e : list Z) c :
  (i < length k)%nat -> (i < length e)%nat -> FixedString.buf Str !! i = Some c ->
  XorContext_body Str seed (Z.of_nat i) (k, e)
  = Some (<[i := RandomChar seed (Z.of_nat i)]> k,
          <[i := enc_byte (RandomChar seed (Z.of_nat i)) c]> e).
Proof.
  intros Hk He Hc. unfold XorContext_body. simpl.
  rewrite array_set_insert by assumption. simpl.
  rewrite !array_get_lookup.
  rewrite list_lookup_insert_eq by assumption. simpl.
  rewrite Hc. simpl.
  rewrite array_set_insert by assumption. reflexivity.
Qed.

(** The instantiations of [constexpr_for] from index [j] on assign
    [m_key[i]] and [m_encBuf[i]] for every [i] from [j] to [size - 1] and
    nothing else. *)
Lemma constexpr_for_assigns (Str : FixedString.t) seed (size : nat) :
  forall (depth j : nat) (k e : list Z),
  (size <= length (FixedString.buf Str))%nat ->
  (j <= size)%nat -> (size <= length k)%nat -> (size <= length e)%nat ->
  (size - j < depth)%nat -> Z.of_nat size < 2 ^ 64 ->
  exists k' e',
    constexpr_for depth (Z.of_nat j) (Z.of_nat size) 1 (XorContext_body Str seed) (k, e)
      = Some (k', e') /\
    length k' = length k /\ length e' = length e /\
    (forall i, (j <= i < size)%nat ->
       k' !! i = Some (RandomChar seed (Z.of_nat i)) /\
       e' !! i = enc_byte (RandomChar seed (Z.of_nat i)) <$> FixedString.buf Str !! i) /\
    (forall i, ~ (j <= i < size)%nat -> k' !! i = k !! i /\ e' !! i = e !! i).
Proof.
  induction depth as [|depth IH]; intros j k e Hbuf Hj Hk He Hdepth Hsize; [lia|].
  simpl. rewrite to_size_t_small by lia.
  destruct (Z.ltb_spec (Z.of_nat j) (Z.of_nat size)) as [Hlt|Hge].
  - destruct (lookup_lt_is_Some_2 (FixedString.buf Str) j) as [c Hc]; [lia|].
    rewrite (XorContext_body_spec Str seed j k e c) by (assumption || lia).
    simpl. replace (Z.of_nat j + 1) with (Z.of_nat (S j)) by lia.
    destruct (IH (S j)
                 (<[j := RandomChar seed (Z.of_nat j)]> k)
                 (<[j := enc_byte (RandomChar seed (Z.of_nat j)) c]> e))
      as (k' & e' & Hrun & Hlk & Hle & Hin & Hout);
      rewrite ?length_insert; try lia.
    exists k', e'. rewrite length_insert in Hlk, Hle.
    split; [assumption|]. split; [assumption|]. split; [assumption|]. split.
    + intros i Hi. destruct (decide (i = j)) as [->|Hne].
      * destruct (Hout j) as [Hkj Hej]; [lia|].
        rewrite Hkj, Hej, !list_lookup_insert_eq, Hc by lia. auto.
      * apply Hin. lia.
    + intros i Hi. destruct (Hout i) as [Hki Hei]; [lia|].
      rewrite Hki, Hei, !list_lookup_insert_ne by lia. auto.
  - exists k, e. split; [reflexivity|]. split; [reflexivity|].
    split; [reflexivity|]. split; [intros i Hi; lia|auto].
Qed.

End Context_construction.

(** ** Decrypt *)

Lemma _mm_load_ps_block (mem : list Z) (i : nat) :
  (i mod 16 = 0)%nat -> (i + 16 <= length mem)%nat ->
  _mm_load_ps mem (Z.of_nat i) = Some (take 16 (drop i mem)).
Proof.
  intros Hal Hlen. unfold _mm_load_ps, sizeof_m128.
  assert (Z.of_nat i mod 16 = 0) as -> by (change 16 with (Z.of_nat 16); rewrite <- Nat2Z.inj_mod; lia).
  destruct (Z.leb_spec 0 (Z.of_nat i)); [|lia].
  destruct (Z.leb_spec (Z.of_nat i + 16) (Z.of_nat (length mem))); [|lia].
  simpl. now rewrite Nat2Z.id.
Qed.

Lemma _mm_store_ps_block (mem v : list Z) (i : nat) :
  (i mod 16 = 0)%nat -> (i + 16 <= length mem)%nat ->
  _mm_store_ps mem (Z.of_nat i) v = Some (take i mem ++ v ++ drop (i + 16) mem).
Proof.
  intros Hal Hlen. unfold _mm_store_ps, sizeof_m128.
  assert (Z.of_nat i mod 16 = 0) as -> by (change 16 with (Z.of_nat 16); rewrite <- Nat2Z.inj_mod; lia).
  destruct (Z.leb_spec 0 (Z.of_nat i)); [|lia].
  destruct (Z.leb_spec (Z.of_nat i + 16) (Z.of_nat (length mem))); [|lia].
  simpl. rewrite Nat2Z.id.
  now replace (Z.to_nat (Z.of_nat i + 16)) with (i + 16)%nat by lia.
Qed.

(** From offset [i] on, with the blocks below [i] already stored, the loop
    of [Decrypt] ends with the xor of the two members in every byte of
    [result]. *)
Lemma Decrypt_loop_spec (ctx : XorContext) (n : nat) (result0 : list Z) :
  length (m_key ctx) = n -> length (m_encBuf ctx) = n -> length result0 = n ->
  (n mod 16 = 0)%nat ->
  FixedString.size (String ctx) <= Z.of_nat n < FixedString.size (String ctx) + 16 ->
  forall (fuel i : nat),
  (i mod 16 = 0)%nat -> (i <= n)%nat -> (n - i <= 16 * fuel)%nat ->
  Decrypt_loop fuel (Z.of_nat i) ctx
    (take i (zip_with Z.lxor (m_key ctx) (m_encBuf ctx)) ++ drop i result0)
  = Some (zip_with Z.lxor (m_key ctx) (m_encBuf ctx)).
Proof.
  intros Hk He Hr Hn Hsize.
  pose proof (size_range (String ctx)) as Hrange.
  set (R := zip_with Z.lxor (m_key ctx) (m_encBuf ctx)).
  assert (length R = n) as HR by (unfold R; rewrite length_zip_with; lia).
  assert (forall i, (i mod 16 = 0)%nat -> (i <= n)%nat ->
                    ~ Z.of_nat i < FixedString.size (String ctx) -> i = n) as Hend.
  { intros i Hi Hle Hnlt.
    apply Nat.Div0.div_exact in Hi, Hn. lia. }
  assert (forall i, (i mod 16 = 0)%nat ->
                    Z.of_nat i < FixedString.size (String ctx) -> (i + 16 <= n)%nat) as Hroom.
  { intros i Hi Hlt.
    apply Nat.Div0.div_exact in Hi, Hn. lia. }
  induction fuel as [|fuel IH]; intros i Hi Hle Hfuel.
  - simpl. destruct (Z.ltb_spec (Z.of_nat i) (FixedString.size (String ctx))) as [Hlt|Hge].
    + specialize (Hroom i Hi Hlt). lia.
    + rewrite (Hend i) by (assumption || lia).
      now rewrite <- HR, firstn_all, <- Hr at 1; rewrite drop_all, app_nil_r.
  - simpl. destruct (Z.ltb_spec (Z.of_nat i) (FixedString.size (String ctx))) as [Hlt|Hge].
    + specialize (Hroom i Hi Hlt).
      rewrite !_mm_load_ps_block by lia. simpl.
      assert (length (take i R) = i) as Htake by (rewrite length_take; lia).
      rewrite _mm_store_ps_block
        by (rewrite ?length_app, ?Htake, ?length_drop; lia).
      simpl. unfold sizeof_m128.
      rewrite to_size_t_small by lia.
      replace (Z.of_nat i + 16) with (Z.of_nat (i + 16)) by lia.
      replace (take i (take i R ++ drop i result0) ++
               _mm_xor_ps (take 16 (drop i (m_key ctx))) (take 16 (drop i (m_encBuf ctx))) ++
               drop (i + 16) (take i R ++ drop i result0))
        with (take (i + 16) R ++ drop (i + 16) result0).
      { apply IH; [|lia|lia].
        rewrite <- Nat.Div0.add_mod_idemp_l, Hi. reflexivity. }
      rewrite <- take_take_drop, <- app_assoc. f_equal.
      * symmetry. rewrite <- Htake at 1. apply take_app_length.
      * f_equal.
        -- unfold _mm_xor_ps, R. now rewrite zip_with_drop, zip_with_take.
        -- rewrite drop_app_ge by lia. rewrite Htake, drop_drop. f_equal. lia.
    + rewrite (Hend i) by (assumption || lia).
      now rewrite <- HR, firstn_all, <- Hr at 1; rewrite drop_all, app_nil_r.
Qed.

(** [Decrypt] returns the byte-wise xor of [m_key] and [m_encBuf], whatever
    the storage of [result] held before. *)
Lemma Decrypt_xor (ctx : XorContext) (result0 : nat -> Z) :
  XorContext_sized ctx ->
  Decrypt ctx result0 = Some (zip_with Z.lxor (m_key ctx) (m_encBuf ctx)).
Proof.
  intros [Hk He]. unfold Decrypt.
  rewrite buffer_size_round_up in *.
  pose proof (size_range (String ctx)) as Hrange.
  destruct (round_up_16_least (FixedString.size (String ctx))) as [Hmod Hbound].
  set (n := Z.to_nat (round_up 16 (FixedString.size (String ctx)))).
  assert (Z.of_nat n = round_up 16 (FixedString.size (String ctx))) as Hn by lia.
  change (Z.to_nat 0) with 0%nat.
  replace (std_array (round_up 16 (FixedString.size (String ctx))) result0)
    with (take 0 (zip_with Z.lxor (m_key ctx) (m_encBuf ctx)) ++
          drop 0 (std_array (round_up 16 (FixedString.size (String ctx))) result0))
    by reflexivity.
  change 0 with (Z.of_nat 0) at 1.
  apply (Decrypt_loop_spec ctx n); try lia.
  - apply Nat2Z.inj. rewrite length_std_array; lia.
  - apply Nat2Z.inj. rewrite Nat2Z.inj_mod, Hn. assumption.
  - reflexivity.
  - clear Hk He. Z.div_mod_to_equations. lia.
Qed.

(** ** The seed *)

Section Obfuscation.
Context `{Platform}.

(** [RandomSeed] on the [FixedString]s of two literals. *)
Lemma RandomSeed_literal (str file : list Z) (line : Z) (stamp : list Z) :
  RandomSeed (FixedString.mk (Z.of_nat (length str)) (literal str))
             (FixedString.mk (Z.of_nat (length file)) (literal file))
             line stamp
  = Some (DeriveSeed str file line stamp).
Proof.
  unfold RandomSeed, FixedString.to_ptr. simpl.
  rewrite !FNV1_literal. reflexivity.
Qed.

(** The seed of a call site in closed form: the xor of what [FNV1] returns
    on the literal, on the file name and on the build stamp, and of
    SplitMix64 of the line number. *)
Theorem RandomSeed_DeriveSeed (str file : list Z) (line : Z) (stamp : list Z) :
  fits str -> fits file ->
  exists String FileName,
    FixedString.deduce (literal str) = Some String /\
    FixedString.deduce (literal file) = Some FileName /\
    RandomSeed String FileName line stamp = Some (DeriveSeed str file line stamp).
Proof.
  intros Hstr Hfile. eexists _, _.
  split; [now apply deduce_literal|]. split; [now apply deduce_literal|].
  apply RandomSeed_literal.
Qed.

(** ** The obfuscation context *)

(** What [XorContext<str, file, line>()] holds once constructed. *)
Lemma XorContext_temporary_spec (depth : nat) (str file : list Z) (line : Z)
    (stamp : list Z) (key0 enc0 : nat -> Z) :
  fits str -> fits file -> (length str + 2 <= depth)%nat ->
  exists ctx,
    XorContext_temporary depth str file line stamp key0 enc0 = Some ctx /\
    String ctx = FixedString.mk (Z.of_nat (length str)) (literal str) /\
    FileName ctx = FixedString.mk (Z.of_nat (length file)) (literal file) /\
    LineNumber ctx = line /\
    XorContext_sized ctx /\
    buffer_size (String ctx) = round_up 16 (Z.of_nat (length str) + 1) /\
    (forall i, (i <= length str)%nat ->
       m_key ctx !! i
         = Some (RandomChar (DeriveSeed str file line stamp) (Z.of_nat i)) /\
       m_encBuf ctx !! i
         = enc_byte (RandomChar (DeriveSeed str file line stamp) (Z.of_nat i))
             <$> literal str !! i) /\
    (forall i, (length str < i)%nat -> Z.of_nat i < buffer_size (String ctx) ->
       m_key ctx !! i = Some (int_to_char (key0 i)) /\
       m_encBuf ctx !! i = Some (int_to_char (enc0 i))).
Proof.
  intros Hstr Hfile Hdepth.
  unfold XorContext_temporary, XorContext_ctor.
  rewrite !deduce_literal by assumption. simpl.
  rewrite RandomSeed_literal. simpl.
  set (Str := FixedString.mk (Z.of_nat (length str)) (literal str)).
  assert (FixedString.size Str = Z.of_nat (length str + 1)) as Hsize.
  { unfold FixedString.size, Str. simpl. unfold fits in Hstr.
    rewrite to_unsigned_small; lia. }
  assert (buffer_size Str = round_up 16 (Z.of_nat (length str) + 1)) as Hbuf.
  { rewrite buffer_size_round_up, Hsize. f_equal. lia. }
  destruct (round_up_16_least (Z.of_nat (length str) + 1)) as [_ Hround].
  rewrite Hsize. change 0 with (Z.of_nat 0) at 1.
  destruct (constexpr_for_assigns Str (DeriveSeed str file line stamp)
              (length str + 1) depth 0
              (std_array (buffer_size Str) key0) (std_array (buffer_size Str) enc0))
    as (k' & e' & Hrun & Hlk & Hle & Hin & Hout).
  { unfold Str, literal. simpl. rewrite length_app. simpl. lia. }
  { lia. }
  { apply Nat2Z.inj_le. rewrite length_std_array; lia. }
  { apply Nat2Z.inj_le. rewrite length_std_array; lia. }
  { lia. }
  { unfold fits in Hstr. lia. }
  rewrite Hrun. simpl. eexists. split; [reflexivity|]. simpl.
  split; [reflexivity|]. split; [reflexivity|]. split; [reflexivity|].
  split; [|split; [assumption|split]].
  - unfold XorContext_sized. simpl.
    rewrite Hlk, Hle, !length_std_array by lia. auto.
  - intros i Hi. apply Hin. lia.
  - intros i Hi Hlt. destruct (Hout i) as [Hk He]; [lia|].
    rewrite Hk, He, !lookup_std_array by assumption. auto.
Qed.

Lemma RandomChar_is_char seed index : is_char (RandomChar seed index).
Proof. unfold RandomChar. apply int_to_char_is_char. Qed.

(** C3, as the code has it: the constructor assigns indices 0 to L of both
    buffers, with [key[i] = RandomChar(seed, i)] and
    [cipher[i] = key[i] XOR plaintext[i]], where [plaintext] is the literal
    followed by its null terminator and [seed] is the seed of the call site. *)
Theorem XorContext_assigns_string (depth : nat) (str file : list Z) (line : Z)
    (stamp : list Z) (key0 enc0 : nat -> Z) :
  Forall is_char str -> fits str -> fits file -> (length str + 2 <= depth)%nat ->
  exists ctx seed,
    XorContext_temporary depth str file line stamp key0 enc0 = Some ctx /\
    RandomSeed (String ctx) (FileName ctx) (LineNumber ctx) stamp = Some seed /\
    forall i, 0 <= i < Z.of_nat (length str) + 1 ->
      exists key_i plain_i,
        array_get (m_key ctx) i = Some key_i /\
        array_get (literal str) i = Some plain_i /\
        key_i = RandomChar seed i /\
        array_get (m_encBuf ctx) i = Some (Z.lxor key_i plain_i).
Proof.
  intros Hchars Hstr Hfile Hdepth.
  destruct (XorContext_temporary_spec depth str file line stamp key0 enc0)
    as (ctx & Hctx & HS & HF & HL & _ & _ & Hin & _); try assumption.
  exists ctx, (DeriveSeed str file line stamp).
  split; [assumption|]. split.
  - rewrite HS, HF, HL. apply RandomSeed_literal.
  - intros i Hi.
    assert (i = Z.of_nat (Z.to_nat i)) as Hnat by lia.
    set (n := Z.to_nat i) in *. clearbody n. subst i.
    destruct (Hin n) as [Hk He]; [lia|].
    destruct (lookup_lt_is_Some_2 (literal str) n) as [c Hc].
    { unfold literal. rewrite length_app. simpl. lia. }
    assert (is_char c) as Hcc.
    { assert (Forall is_char (literal str)) as Hall.
      { apply Forall_app. split; [assumption|].
        apply Forall_cons. split; [unfold is_char; lia|apply Forall_nil_2]. }
      rewrite Forall_lookup in Hall. exact (Hall _ _ Hc). }
    exists (RandomChar (DeriveSeed str file line stamp) (Z.of_nat n)), c.
    rewrite !array_get_lookup.
    rewrite Hk, He, Hc. simpl.
    rewrite <- (xor_chars _ c) by (apply RandomChar_is_char || assumption).
    auto.
Qed.

(** C1: decrypting the context of a literal gives the literal's characters
    in the first [L] bytes of the result and the null terminator in byte
    [L], for every call site, build stamp and prior contents of the storage
    involved. *)
Theorem Decrypt_round_trip (depth : nat) (str file : list Z) (line : Z)
    (stamp : list Z) (key0 enc0 result0 : nat -> Z) :
  Forall is_char str -> fits str -> fits file -> (length str + 2 <= depth)%nat ->
  exists ctx result,
    XorContext_temporary depth str file line stamp key0 enc0 = Some ctx /\
    Decrypt ctx result0 = Some result /\
    result = zip_with Z.lxor (m_key ctx) (m_encBuf ctx) /\
    (forall i, (i < length str)%nat -> result !! i = str !! i) /\
    result !! length str = Some 0.
Proof.
  intros Hchars Hstr Hfile Hdepth.
  destruct (XorContext_temporary_spec depth str file line stamp key0 enc0)
    as (ctx & Hctx & _ & _ & _ & Hsized & _ & Hin & _); try assumption.
  exists ctx, (zip_with Z.lxor (m_key ctx) (m_encBuf ctx)).
  split; [assumption|]. split; [now apply Decrypt_xor|]. split; [reflexivity|].
  assert (forall i c, literal str !! i = Some c -> is_char c ->
            zip_with Z.lxor (m_key ctx) (m_encBuf ctx) !! i = Some c) as Hbyte.
  { intros i c Hc Hcc.
    destruct (Hin i) as [Hk He].
    { apply lookup_lt_Some in Hc. unfold literal in Hc.
      rewrite length_app in Hc. simpl in Hc. lia. }
    rewrite lookup_zip_with, Hk, He, Hc. simpl.
    unfold enc_byte.
    rewrite xor_chars by (apply RandomChar_is_char || assumption).
    now rewrite lxor_cancel. }
  split.
  - intros i Hi.
    destruct (lookup_lt_is_Some_2 str i Hi) as [c Hc].
    rewrite Hc. apply Hbyte.
    + unfold literal. now rewrite lookup_app_l.
    + rewrite Forall_lookup in Hchars. exact (Hchars _ _ Hc).
  - apply Hbyte; [|unfold is_char; lia].
    unfold literal. now rewrite list_lookup_middle.
Qed.

(** C7: for a literal of length [L], the key buffer, the ciphertext buffer
    and the buffer [Decrypt] returns all have [L + 1] rounded up to the next
    multiple of 16 elements. *)
Theorem buffers_padded_to_16 (depth : nat) (str file : list Z) (line : Z)
    (stamp : list Z) (key0 enc0 result0 : nat -> Z) :
  fits str -> fits file -> (length str + 2 <= depth)%nat ->
  exists ctx result,
    XorContext_temporary depth str file line stamp key0 enc0 = Some ctx /\
    Decrypt ctx result0 = Some result /\
    Z.of_nat (length (m_key ctx)) = round_up 16 (Z.of_nat (length str) + 1) /\
    Z.of_nat (length (m_encBuf ctx)) = round_up 16 (Z.of_nat (length str) + 1) /\
    Z.of_nat (length result) = round_up 16 (Z.of_nat (length str) + 1).
Proof.
  intros Hstr Hfile Hdepth.
  destruct (XorContext_temporary_spec depth str file line stamp key0 enc0)
    as (ctx & Hctx & _ & _ & _ & Hsized & Hbuf & _ & _); try assumption.
  exists ctx, (zip_with Z.lxor (m_key ctx) (m_encBuf ctx)).
  split; [assumption|]. split; [now apply Decrypt_xor|].
  destruct Hsized as [Hk He]. rewrite Hbuf in Hk, He.
  split; [assumption|]. split; [assumption|].
  rewrite length_zip_with. lia.
Qed.

End Obfuscation.

(** Where no character is promoted to a negative [int], the seed is the one
    the specification describes. *)
Lemma RandomSeed_published `{Platform} (str file : list Z) (line : Z)
    (stamp : list Z) :
  fits str -> fits file ->
  Forall is_char str -> Forall is_char file -> Forall is_char stamp ->
  char_is_signed = false \/
    (Forall (fun c => c < 128) str /\ Forall (fun c => c < 128) file /\
     Forall (fun c => c < 128) stamp) ->
  exists String FileName,
    FixedString.deduce (literal str) = Some String /\
    FixedString.deduce (literal file) = Some FileName /\
    RandomSeed String FileName line stamp
    = Some (DeriveSeed_published str file line stamp).
Proof.
  intros Hstr Hfile Hcs Hcf Hct Hlow. eexists _, _.
  split; [now apply deduce_literal|]. split; [now apply deduce_literal|].
  rewrite RandomSeed_literal. unfold DeriveSeed, DeriveSeed_published.
  rewrite !Fnv1_octets; try assumption; try reflexivity;
    destruct Hlow as [?|(? & ? & ?)]; auto.
Qed.

(** C6, on the code: where [char] is signed (x86-64), [FNV1] xors a
    character of 0x80 or more in sign-extended to 64 bits, so its result is
    not the FNV-1 hash of the bytes.  For the literal "\xc8" at a.cpp:10
    [FNV1] returns 5808590958014384151 where FNV-1 of the byte 0xC8 is
    12638153115695167255 (the two differ in their upper 56 bits), and the
    seed [RandomSeed] returns is not the xor the specification describes. *)
Theorem RandomSeed_not_FNV1_of_bytes :
  FNV1 (literal [200]) FNV1_default_hash = Some 5808590958014384151 /\
  fnv1_octets (c_str (literal [200])) = 12638153115695167255 /\
  Z.lxor 5808590958014384151 12638153115695167255 = 2 ^ 64 - 2 ^ 8 /\
  exists String FileName seed,
    FixedString.deduce (literal [200]) = Some String /\
    FixedString.deduce (literal a_cpp) = Some FileName /\
    RandomSeed String FileName 10 build_stamp = Some seed /\
    seed <> DeriveSeed_published [200] a_cpp 10 build_stamp.
Proof.
  split; [vm_compute; reflexivity|]. split; [vm_compute; reflexivity|].
  split; [vm_compute; reflexivity|].
  eexists _, _, _. split; [vm_compute; reflexivity|].
  split; [vm_compute; reflexivity|]. split; [vm_compute; reflexivity|].
  vm_compute. discriminate.
Qed.

(** C9: on a context whose members have the length their type gives them,
    [Decrypt] returns a buffer, and the same buffer whatever the storage of
    its local array held: two invocations on one context agree byte for
    byte. *)
Theorem Decrypt_deterministic (ctx : XorContext) (result0 result0' : nat -> Z) :
  XorContext_sized ctx ->
  exists result,
    Decrypt ctx result0 = Some result /\ Decrypt ctx result0' = Some result.
Proof.
  intros Hsized. exists (zip_with Z.lxor (m_key ctx) (m_encBuf ctx)).
  split; now apply Decrypt_xor.
Qed.

(** ** Call sites *)

Lemma RandomChar_0 seed : RandomChar seed 0 = seed mod 256.
Proof.
  rewrite RandomChar_steps by lia. simpl.
  change 255 with (Z.ones 8). now rewrite Z.land_ones by lia.
Qed.

Lemma lxor_inj_l a b c : Z.lxor a b = Z.lxor a c -> b = c.
Proof.
  intros Heq. apply (f_equal (Z.lxor a)) in Heq.
  now rewrite !lxor_cancel in Heq.
Qed.

Lemma lxor_common a b c : Z.lxor (Z.lxor a b) (Z.lxor a c) = Z.lxor b c.
Proof.
  rewrite (Z.lxor_comm a b), Z.lxor_assoc, <- (Z.lxor_assoc a a c).
  now rewrite Z.lxor_nilpotent, Z.lxor_0_l.
Qed.

Lemma fits_hello : fits hello.
Proof. unfold fits, hello. simpl. lia. Qed.

Section Call_sites.
Context `{Platform}.

(** C8: for the literal "hello" in one file of one build, the seed derived
    at line 10 and the seed derived at line 11 differ by exactly
    [SplitMix64(10) XOR SplitMix64(11)], which is not zero, and the key
    buffers of the two contexts differ (already in their first byte). *)
Theorem hello_key_differs_between_lines (depth : nat) (file stamp : list Z)
    (key0 enc0 key0' enc0' : nat -> Z) :
  fits file -> (7 <= depth)%nat ->
  exists ctx10 ctx11 seed10 seed11,
    XorContext_temporary depth hello file 10 stamp key0 enc0 = Some ctx10 /\
    XorContext_temporary depth hello file 11 stamp key0' enc0' = Some ctx11 /\
    RandomSeed (String ctx10) (FileName ctx10) (LineNumber ctx10) stamp = Some seed10 /\
    RandomSeed (String ctx11) (FileName ctx11) (LineNumber ctx11) stamp = Some seed11 /\
    Z.lxor seed10 seed11 = Z.lxor (SplitMix64 10) (SplitMix64 11) /\
    seed10 <> seed11 /\
    m_key ctx10 !! 0%nat <> m_key ctx11 !! 0%nat /\
    m_key ctx10 <> m_key ctx11.
Proof.
  intros Hfile Hdepth.
  destruct (XorContext_temporary_spec depth hello file 10 stamp key0 enc0)
    as (ctx10 & Hctx10 & HS10 & HF10 & HL10 & _ & _ & Hin10 & _);
    [apply fits_hello|assumption|simpl; lia|].
  destruct (XorContext_temporary_spec depth hello file 11 stamp key0' enc0')
    as (ctx11 & Hctx11 & HS11 & HF11 & HL11 & _ & _ & Hin11 & _);
    [apply fits_hello|assumption|simpl; lia|].
  exists ctx10, ctx11, (DeriveSeed hello file 10 stamp), (DeriveSeed hello file 11 stamp).
  assert (m_key ctx10 !! 0%nat <> m_key ctx11 !! 0%nat) as Hfirst.
  { destruct (Hin10 0%nat) as [Hk10 _]; [simpl; lia|].
    destruct (Hin11 0%nat) as [Hk11 _]; [simpl; lia|].
    rewrite Hk10, Hk11. change (Z.of_nat 0) with 0.
    rewrite !RandomChar_0. unfold DeriveSeed.
    rewrite !mod256_lxor. intros Heq.
    injection Heq as Heq. apply lxor_inj_l in Heq.
    vm_compute in Heq. discriminate. }
  split; [assumption|]. split; [assumption|].
  split; [rewrite HS10, HF10, HL10; apply RandomSeed_literal|].
  split; [rewrite HS11, HF11, HL11; apply RandomSeed_literal|].
  split; [unfold DeriveSeed; apply lxor_common|].
  split.
  - unfold DeriveSeed. intros Heq. apply lxor_inj_l in Heq.
    vm_compute in Heq. discriminate.
  - split; [assumption|]. intros Heq. apply Hfirst. now rewrite Heq.
Qed.

End Call_sites.

(** C3, as stated, fails for "hello" at a.cpp:10 when the storage of the
    context was last filled with 0xCC: the constructor stops at index 5, so
    [m_key[6]] still holds 0xCC, while [RandomChar(seed, 6)] is 0x78. *)
Lemma padding_not_assigned :
  exists ctx seed,
    XorContext_temporary 8 hello a_cpp 10 build_stamp stale stale = Some ctx /\
    RandomSeed (String ctx) (FileName ctx) (LineNumber ctx) build_stamp = Some seed /\
    ~ (forall i, 0 <= i < buffer_size (String ctx) ->
         array_get (m_key ctx) i = Some (RandomChar seed i)).
Proof.
  eexists _, _. split; [vm_compute; reflexivity|].
  split; [vm_compute; reflexivity|].
  intros Hall.
  assert (0 <= 6 < 16) as Hsix by lia.
  specialize (Hall 6 Hsix). vm_compute in Hall. discriminate.
Qed.

(** C2, on the code: the expansion of [XorStr] is the same whether or not
    [CTE_ENCRYPTSTRINGS] is defined.  Without it, [XorStr("hello")] at
    a.cpp:10 is still [XorContext<...>().Decrypt().data()], not the literal:
    the context is built, its [m_encBuf] holds ciphertext, and the value is
    what [Decrypt] returns. *)
Theorem XorStr_ignores_toggle :
  (forall str file line, XorStr false str file line = XorStr true str file line) /\
  (forall str file line, XorStr_ false str file line = XorStr_ true str file line) /\
  XorStr false hello a_cpp 10 = DecryptData hello a_cpp 10 /\
  XorStr false hello a_cpp 10 <> PlainLiteral hello /\
  exists ctx,
    XorContext_temporary 8 hello a_cpp 10 build_stamp stale stale = Some ctx /\
    take 6 (m_encBuf ctx) = [208; 103; 139; 205; 200; 32] /\
    eval 8 build_stamp stale stale stale (XorStr false hello a_cpp 10)
      = Decrypt ctx stale.
Proof.
  split; [reflexivity|]. split; [reflexivity|]. split; [reflexivity|].
  split; [discriminate|].
  eexists. split; [vm_compute; reflexivity|].
  split; vm_compute; reflexivity.
Qed.

(** ** The theorems at "hello", a.cpp:10 *)

Lemma hello_chars : Forall is_char hello.
Proof.
  unfold hello.
  repeat (apply List.Forall_cons; [unfold is_char; lia|]).
  apply List.Forall_nil.
Qed.

Lemma fits_a_cpp : fits a_cpp.
Proof. unfold fits, a_cpp. simpl. lia. Qed.

Lemma Decrypt_round_trip_hello :
  exists ctx result,
    XorContext_temporary 8 hello a_cpp 10 build_stamp stale stale = Some ctx /\
    Decrypt ctx stale = Some result /\
    result = zip_with Z.lxor (m_key ctx) (m_encBuf ctx) /\
    (forall i, (i < length hello)%nat -> result !! i = hello !! i) /\
    result !! length hello = Some 0.
Proof.
  apply (Decrypt_round_trip 8 hello a_cpp 10 build_stamp stale stale stale).
  - apply hello_chars.
  - apply fits_hello.
  - apply fits_a_cpp.
  - simpl. lia.
Defined.

Lemma XorContext_assigns_string_hello :
  exists ctx seed,
    XorContext_temporary 8 hello a_cpp 10 build_stamp stale stale = Some ctx /\
    RandomSeed (String ctx) (FileName ctx) (LineNumber ctx) build_stamp = Some seed /\
    forall i, 0 <= i < Z.of_nat (length hello) + 1 ->
      exists key_i plain_i,
        array_get (m_key ctx) i = Some key_i /\
        array_get (literal hello) i = Some plain_i /\
        key_i = RandomChar seed i /\
        array_get (m_encBuf ctx) i = Some (Z.lxor key_i plain_i).
Proof.
  apply (XorContext_assigns_string 8 hello a_cpp 10 build_stamp stale stale).
  - apply hello_chars.
  - apply fits_hello.
  - apply fits_a_cpp.
  - simpl. lia.
Defined.

Lemma RandomChar_floor_steps_137 :
  RandomChar 11779200729735430840 137 = keystream_byte (137 / 8) 11779200729735430840 137.
Proof. apply RandomChar_floor_steps. lia. Defined.

Lemma RandomChar_ByteAt_137 :
  RandomChar 11779200729735430840 137 = ByteAt 11779200729735430840 137.
Proof. apply RandomChar_ByteAt. lia. Defined.

Lemma RandomSeed_DeriveSeed_hello :
  exists String FileName,
    FixedString.deduce (literal hello) = Some String /\
    FixedString.deduce (literal a_cpp) = Some FileName /\
    RandomSeed String FileName 10 build_stamp
      = Some (DeriveSeed hello a_cpp 10 build_stamp).
Proof.
  apply (RandomSeed_DeriveSeed hello a_cpp 10 build_stamp).
  - apply fits_hello.
  - apply fits_a_cpp.
Defined.

Lemma buffers_padded_to_16_hello :
  exists ctx result,
    XorContext_temporary 8 hello a_cpp 10 build_stamp stale stale = Some ctx /\
    Decrypt ctx stale = Some result /\
    Z.of_nat (length (m_key ctx)) = 16 /\
    Z.of_nat (length (m_encBuf ctx)) = 16 /\
    Z.of_nat (length result) = 16.
Proof.
  apply (buffers_padded_to_16 8 hello a_cpp 10 build_stamp stale stale stale).
  - apply fits_hello.
  - apply fits_a_cpp.
  - simpl. lia.
Defined.

Lemma hello_key_differs_between_lines_a_cpp :
  exists ctx10 ctx11 seed10 seed11,
    XorContext_temporary 8 hello a_cpp 10 build_stamp stale stale = Some ctx10 /\
    XorContext_temporary 8 hello a_cpp 11 build_stamp stale stale = Some ctx11 /\
    RandomSeed (String ctx10) (FileName ctx10) (LineNumber ctx10) build_stamp = Some seed10 /\
    RandomSeed (String ctx11) (FileName ctx11) (LineNumber ctx11) build_stamp = Some seed11 /\
    Z.lxor seed10 seed11 = Z.lxor (SplitMix64 10) (SplitMix64 11) /\
    seed10 <> seed11 /\
    m_key ctx10 !! 0%nat <> m_key ctx11 !! 0%nat /\
    m_key ctx10 <> m_key ctx11.
Proof.
  apply (hello_key_differs_between_lines 8 a_cpp build_stamp stale stale stale stale).
  - apply fits_a_cpp.
  - lia.
Defined.

Lemma Decrypt_deterministic_hello :
  exists result,
    Decrypt (mkXorContext (FixedString.mk 5 (literal hello))
                          (FixedString.mk 5 (literal a_cpp)) 10
               [184; 2; 231; 161; 167; 32; 204; 204; 204; 204; 204; 204; 204; 204; 204; 204]
               [208; 103; 139; 205; 200; 32; 204; 204; 204; 204; 204; 204; 204; 204; 204; 204])
            stale = Some result /\
    Decrypt (mkXorContext (FixedString.mk 5 (literal hello))
                          (FixedString.mk 5 (literal a_cpp)) 10
               [184; 2; 231; 161; 167; 32; 204; 204; 204; 204; 204; 204; 204; 204; 204; 204]
               [208; 103; 139; 205; 200; 32; 204; 204; 204; 204; 204; 204; 204; 204; 204; 204])
            (fun _ => 0) = Some result.
Proof.
  apply Decrypt_deterministic.
  split; vm_compute; reflexivity.
Defined.

Lemma FixedString_null_terminated_hello :
  exists fs,
    FixedString.ctor (Z.of_nat 5) hello = Some fs /\
    (forall i, 0 <= i < Z.of_nat 5 ->
       array_get (FixedString.buf fs) i = array_get hello i) /\
    array_get (FixedString.buf fs) (Z.of_nat 5) = Some 0 /\
    Z.of_nat (length (FixedString.buf fs)) = Z.of_nat 5 + 1 /\
    FixedString.size fs = Z.of_nat 5 + 1 /\
    (forall hash, is_Some (FNV1 (FixedString.to_ptr fs) hash)) /\
    (forall hash, 0 ∉ hello -> FNV1 hello hash = None).
Proof.
  apply (FixedString_null_terminated 5 hello).
  - reflexivity.
  - simpl. lia.
Defined.

(** * Further properties of the code *)

(** ** Bits *)

Lemma mod_pow2_lxor n a b :
  0 <= n -> Z.lxor a b mod 2 ^ n = Z.lxor (a mod 2 ^ n) (b mod 2 ^ n).
Proof.
  intros Hn. apply Z.bits_inj'. intros i Hi.
  rewrite Z.lxor_spec, !Z.testbit_mod_pow2, Z.lxor_spec by assumption.
  destruct (i <? n); reflexivity.
Qed.

Lemma lxor_range64 a b :
  0 <= a < 2 ^ 64 -> 0 <= b < 2 ^ 64 -> 0 <= Z.lxor a b < 2 ^ 64.
Proof.
  intros Ha Hb.
  rewrite <- (Z.mod_small a (2 ^ 64)), <- (Z.mod_small b (2 ^ 64)) by assumption.
  rewrite <- mod_pow2_lxor by lia. apply Z.mod_pos_bound. lia.
Qed.

Lemma shiftr_range64 x k : 0 <= k -> 0 <= x < 2 ^ 64 -> 0 <= Z.shiftr x k < 2 ^ 64.
Proof.
  intros Hk Hx. rewrite Z.shiftr_div_pow2 by assumption.
  assert (0 < 2 ^ k) by (apply Z.pow_pos_nonneg; lia).
  split; [apply Z.div_pos; lia|].
  apply Z.le_lt_trans with x; [|lia].
  apply Z.div_le_upper_bound; nia.
Qed.

(** [x ^ (x >> k)] determines a 64-bit [x]: bit [n] of [x] is recovered from
    the bits above it. *)
Lemma xorshift_inj k x y :
  0 < k -> 0 <= x < 2 ^ 64 -> 0 <= y < 2 ^ 64 ->
  Z.lxor x (Z.shiftr x k) = Z.lxor y (Z.shiftr y k) -> x = y.
Proof.
  intros Hk Hx Hy Heq.
  assert (forall n, 64 <= n -> Z.testbit x n = Z.testbit y n) as Hhigh.
  { intros n Hn.
    rewrite <- (Z.mod_small x (2 ^ 64)), <- (Z.mod_small y (2 ^ 64)) by assumption.
    rewrite !Z.testbit_mod_pow2 by lia.
    destruct (Z.ltb_spec n 64); [lia|reflexivity]. }
  assert (forall d : nat, forall n, 0 <= n -> 64 - n <= Z.of_nat d ->
            Z.testbit x n = Z.testbit y n) as Hbits.
  { induction d as [|d IH]; intros n Hn Hd.
    - apply Hhigh. lia.
    - destruct (Z.le_gt_cases 64 n) as [Hge|Hlt]; [now apply Hhigh|].
      pose proof (f_equal (fun z => Z.testbit z n) Heq) as Hbit. simpl in Hbit.
      rewrite !Z.lxor_spec, !Z.shiftr_spec in Hbit by assumption.
      rewrite (IH (n + k)) in Hbit by lia.
      destruct (Z.testbit x n), (Z.testbit y n), (Z.testbit y (n + k));
        simpl in Hbit; congruence. }
  apply Z.bits_inj'. intros n Hn. apply (Hbits (Z.to_nat 64)); lia.
Qed.

(** Multiplication by a constant that has an inverse modulo 2^64 loses
    nothing of a 64-bit value. *)
Lemma mul_mod_inj c c' a b :
  (c * c') mod 2 ^ 64 = 1 -> 0 <= a < 2 ^ 64 -> 0 <= b < 2 ^ 64 ->
  (a * c) mod 2 ^ 64 = (b * c) mod 2 ^ 64 -> a = b.
Proof.
  intros Hinv Ha Hb Heq.
  assert (forall z, 0 <= z < 2 ^ 64 -> z = (((z * c) mod 2 ^ 64) * c') mod 2 ^ 64) as Hback.
  { intros z Hz. rewrite Z.mul_mod_idemp_l by lia.
    rewrite <- Z.mul_assoc, <- Z.mul_mod_idemp_r, Hinv by lia.
    rewrite Z.mul_1_r. symmetry. now apply Z.mod_small. }
  rewrite (Hback a Ha), (Hback b Hb). now rewrite Heq.
Qed.

(** ** The generator *)

Lemma Random64_range x : 0 <= Random64 x < 2 ^ 64.
Proof. unfold Random64, to_uint64. apply Z.mod_pos_bound. lia. Qed.

Lemma iter_Random64_range n seed :
  0 <= seed < 2 ^ 64 -> 0 <= Nat.iter n Random64 seed < 2 ^ 64.
Proof. intros Hs. destruct n; simpl; [assumption|apply Random64_range]. Qed.

(** X1: [Random64] is a permutation of the 64-bit values: [Random64_inv]
    undoes it and is undone by it, so two different states never step to
    the same state. *)
Theorem Random64_invertible x :
  0 <= x < 2 ^ 64 ->
  Random64_inv (Random64 x) = x /\ Random64 (Random64_inv x) = x.
Proof.
  intros Hx. rewrite !Random64_Step. unfold Random64_inv, Step, INCREMENT.
  assert ((6364136223846793005 * MULTIPLIER_inverse) mod 2 ^ 64 = 1) as Hinv
    by reflexivity.
  split.
  - rewrite <- Z.mul_mod_idemp_l, Zminus_mod_idemp_l by lia.
    replace (x * 6364136223846793005 + 1442695040888963407 - 1442695040888963407)
      with (x * 6364136223846793005) by lia.
    rewrite Z.mul_mod_idemp_l by lia.
    rewrite <- Z.mul_assoc, <- Z.mul_mod_idemp_r, Hinv by lia.
    rewrite Z.mul_1_r. now apply Z.mod_small.
  - rewrite <- Z.add_mod_idemp_l, Z.mul_mod_idemp_l by lia.
    rewrite <- Z.mul_assoc, (Z.mul_comm MULTIPLIER_inverse).
    rewrite <- Z.mul_mod_idemp_r, Hinv, Z.mul_1_r by lia.
    rewrite Z.add_mod_idemp_l by lia.
    replace (x - 1442695040888963407 + 1442695040888963407) with x by lia.
    now apply Z.mod_small.
Qed.

(** X2: moving eight positions along the keystream of a seed is the same
    as starting from the next state of the generator. *)
Theorem RandomChar_next_block seed index :
  0 <= index -> index + 8 < 2 ^ 64 ->
  RandomChar seed (index + 8) = RandomChar (Random64 seed) index.
Proof.
  intros Hi Hb. rewrite !RandomChar_steps by lia.
  replace (index + 8) with (index + 1 * 8) by lia.
  rewrite Z.div_add, Z.mod_add by lia.
  assert (0 <= index / 8) by (apply Z.div_pos; lia).
  replace (Z.to_nat (index / 8 + 1)) with (S (Z.to_nat (index / 8))) by lia.
  now rewrite Nat.iter_succ_r.
Qed.

(** The bytes of a block are the little-endian bytes of the state the
    generator has reached. *)
Lemma keystream_block_le seed q :
  0 <= q -> 8 * q + 7 < 2 ^ 64 ->
  keystream_block seed q
  = Z_to_little_endian 8 8 (Nat.iter (Z.to_nat q) Random64 seed).
Proof.
  intros Hq Hb. apply list_eq. intros i. unfold keystream_block.
  rewrite list_lookup_fmap.
  destruct (Z.lt_ge_cases (Z.of_nat i) 8) as [Hi|Hi].
  - rewrite lookup_seqZ_lt by assumption.
    change (Some (RandomChar seed (8 * q + (0 + Z.of_nat i)))
            = Z_to_little_endian 8 8 (Nat.iter (Z.to_nat q) Random64 seed) !! i).
    symmetry.
    apply Z_to_little_endian_lookup_Some; [lia|lia|].
    split; [assumption|].
    rewrite RandomChar_steps by lia.
    replace (8 * q + (0 + Z.of_nat i)) with (Z.of_nat i + q * 8) by lia.
    rewrite Z.div_add, Z.mod_add by lia.
    rewrite Z.div_small, Z.mod_small by lia.
    reflexivity.
  - rewrite lookup_seqZ_ge by assumption.
    change (None = Z_to_little_endian 8 8 (Nat.iter (Z.to_nat q) Random64 seed) !! i).
    symmetry. apply lookup_ge_None.
    pose proof (length_Z_to_little_endian 8 8 (Nat.iter (Z.to_nat q) Random64 seed)).
    lia.
Qed.

(** X3: the eight keystream bytes of block [q], read as a little-endian
    number, are the generator state after [q] steps; the first eight bytes
    of a keystream are the seed itself. *)
Theorem keystream_block_is_state seed q :
  0 <= seed < 2 ^ 64 -> 0 <= q -> 8 * q + 7 < 2 ^ 64 ->
  little_endian_to_Z 8 (keystream_block seed q)
  = Nat.iter (Z.to_nat q) Random64 seed.
Proof.
  intros Hs Hq Hb. rewrite keystream_block_le by assumption.
  rewrite little_endian_to_Z_to_little_endian by lia.
  apply Z.mod_small. change (8 * 8) with 64. now apply iter_Random64_range.
Qed.

(** ** The mixer and the seed *)

Lemma SplitMix64_range x : 0 <= x < 2 ^ 64 -> 0 <= SplitMix64 x < 2 ^ 64.
Proof.
  intros Hx. unfold SplitMix64. cbv zeta.
  apply lxor_range64; [|apply shiftr_range64; [lia|]];
    unfold to_uint64; apply Z.mod_pos_bound; lia.
Qed.

Lemma SplitMix64_inj x y :
  0 <= x < 2 ^ 64 -> 0 <= y < 2 ^ 64 -> SplitMix64 x = SplitMix64 y -> x = y.
Proof.
  intros Hx Hy. unfold SplitMix64, to_uint64. cbv zeta. intros Heq.
  assert (forall z, 0 <= z < 2 ^ 64 -> 0 <= Z.lxor z (Z.shiftr z 30) < 2 ^ 64) as H30.
  { intros z Hz. apply lxor_range64; [assumption|]. apply shiftr_range64; lia. }
  assert (forall z, 0 <= z < 2 ^ 64 -> 0 <= Z.lxor z (Z.shiftr z 27) < 2 ^ 64) as H27.
  { intros z Hz. apply lxor_range64; [assumption|]. apply shiftr_range64; lia. }
  assert (forall z, 0 <= z mod 2 ^ 64 < 2 ^ 64) as Hmod
    by (intros z; apply Z.mod_pos_bound; lia).
  apply xorshift_inj in Heq; [|lia|apply Hmod|apply Hmod].
  apply (mul_mod_inj _ 3573116690164977347) in Heq;
    [|reflexivity|apply H27, Hmod|apply H27, Hmod].
  apply xorshift_inj in Heq; [|lia|apply Hmod|apply Hmod].
  apply (mul_mod_inj _ 10871156337175269513) in Heq;
    [|reflexivity|apply H30, Hx|apply H30, Hy].
  apply xorshift_inj in Heq; [assumption|lia|assumption|assumption].
Qed.

(** X4: [SplitMix64] maps 64-bit values to 64-bit values and never maps
    two of them to the same value. *)
Theorem SplitMix64_injective x y :
  0 <= x < 2 ^ 64 -> 0 <= y < 2 ^ 64 ->
  0 <= SplitMix64 x < 2 ^ 64 /\ (SplitMix64 x = SplitMix64 y <-> x = y).
Proof.
  intros Hx Hy. split; [now apply SplitMix64_range|].
  split; [now apply SplitMix64_inj|now intros ->].
Qed.

Lemma DeriveSeed_lines_differ `{Platform} str file stamp line1 line2 :
  0 <= line1 < 2 ^ 64 -> 0 <= line2 < 2 ^ 64 -> line1 <> line2 ->
  DeriveSeed str file line1 stamp mod 2 ^ 64
  <> DeriveSeed str file line2 stamp mod 2 ^ 64.
Proof.
  intros H1 H2 Hne. unfold DeriveSeed. rewrite !(mod_pow2_lxor 64) by lia.
  intros Heq. apply lxor_inj_l in Heq.
  rewrite !Z.mod_small in Heq by now apply SplitMix64_range.
  now apply SplitMix64_inj in Heq.
Qed.

Section Seeds.
Context `{Platform}.

(** X5: in one file of one build, the same literal at two different lines
    always gets two different seeds (not merely with high probability). *)
Theorem seed_differs_between_lines (str file stamp : list Z) (line1 line2 : Z) :
  fits str -> fits file ->
  0 <= line1 < 2 ^ 64 -> 0 <= line2 < 2 ^ 64 -> line1 <> line2 ->
  exists String FileName seed1 seed2,
    FixedString.deduce (literal str) = Some String /\
    FixedString.deduce (literal file) = Some FileName /\
    RandomSeed String FileName line1 stamp = Some seed1 /\
    RandomSeed String FileName line2 stamp = Some seed2 /\
    seed1 <> seed2.
Proof.
  intros Hstr Hfile H1 H2 Hne. eexists _, _, _, _.
  split; [now apply deduce_literal|]. split; [now apply deduce_literal|].
  split; [apply RandomSeed_literal|]. split; [apply RandomSeed_literal|].
  intros Heq.
  apply (DeriveSeed_lines_differ str file stamp line1 line2); try assumption.
  now rewrite Heq.
Qed.

(** The first eight key bytes of a context whose literal has at least seven
    characters are the first block of the keystream of its seed. *)
Lemma key_first_block (depth : nat) (str file : list Z) (line : Z)
    (stamp : list Z) (key0 enc0 : nat -> Z) :
  fits str -> fits file -> (length str + 2 <= depth)%nat -> (7 <= length str)%nat ->
  exists ctx,
    XorContext_temporary depth str file line stamp key0 enc0 = Some ctx /\
    take 8 (m_key ctx) = keystream_block (DeriveSeed str file line stamp) 0.
Proof.
  intros Hstr Hfile Hdepth Hlen.
  destruct (XorContext_temporary_spec depth str file line stamp key0 enc0)
    as (ctx & Hctx & _ & _ & _ & _ & _ & Hin & _); try assumption.
  exists ctx. split; [assumption|].
  apply list_eq. intros i. unfold keystream_block.
  rewrite list_lookup_fmap.
  destruct (Z.lt_ge_cases (Z.of_nat i) 8) as [Hi|Hi].
  - rewrite lookup_take_lt, lookup_seqZ_lt by lia.
    destruct (Hin i) as [Hk _]; [lia|]. rewrite Hk. reflexivity.
  - rewrite lookup_take_ge, lookup_seqZ_ge by lia. reflexivity.
Qed.

(** X6: for a literal of at least seven characters, the key buffers made at
    two different lines of one file in one build differ within their first
    eight bytes, whatever the literal, the file name and the build stamp. *)
Theorem key_differs_between_lines (depth : nat) (str file stamp : list Z)
    (line1 line2 : Z) (key1 enc1 key2 enc2 : nat -> Z) :
  fits str -> fits file -> (length str + 2 <= depth)%nat -> (7 <= length str)%nat ->
  0 <= line1 < 2 ^ 64 -> 0 <= line2 < 2 ^ 64 -> line1 <> line2 ->
  exists ctx1 ctx2,
    XorContext_temporary depth str file line1 stamp key1 enc1 = Some ctx1 /\
    XorContext_temporary depth str file line2 stamp key2 enc2 = Some ctx2 /\
    take 8 (m_key ctx1) <> take 8 (m_key ctx2) /\
    m_key ctx1 <> m_key ctx2.
Proof.
  intros Hstr Hfile Hdepth Hlen H1 H2 Hne.
  destruct (key_first_block depth str file line1 stamp key1 enc1)
    as (ctx1 & Hctx1 & Hk1); try assumption.
  destruct (key_first_block depth str file line2 stamp key2 enc2)
    as (ctx2 & Hctx2 & Hk2); try assumption.
  exists ctx1, ctx2. split; [assumption|]. split; [assumption|].
  assert (take 8 (m_key ctx1) <> take 8 (m_key ctx2)) as Hfirst.
  { rewrite Hk1, Hk2, !keystream_block_le by lia. simpl Nat.iter.
    intros Heq. apply (f_equal (little_endian_to_Z 8)) in Heq.
    rewrite !little_endian_to_Z_to_little_endian in Heq by lia.
    now apply (DeriveSeed_lines_differ str file stamp line1 line2). }
  split; [assumption|]. intros Heq. apply Hfirst. now rewrite Heq.
Qed.

Lemma Fnv1_c_str (s1 s2 : list Z) : c_str s1 = c_str s2 -> Fnv1 s1 = Fnv1 s2.
Proof. intros Heq. unfold Fnv1. now rewrite Heq. Qed.

(** X7: [FNV1] stops at the first null, so the seed does not depend on
    what a literal holds after an embedded null: two literals with the same
    characters before their first null get the same seed at the same site. *)
Theorem seed_ignores_text_after_null (str1 str2 file stamp : list Z) (line : Z) :
  fits str1 -> fits str2 -> fits file -> c_str str1 = c_str str2 ->
  exists String1 String2 FileName seed,
    FixedString.deduce (literal str1) = Some String1 /\
    FixedString.deduce (literal str2) = Some String2 /\
    FixedString.deduce (literal file) = Some FileName /\
    RandomSeed String1 FileName line stamp = Some seed /\
    RandomSeed String2 FileName line stamp = Some seed.
Proof.
  intros H1 H2 Hfile Heq. eexists _, _, _, _.
  split; [now apply deduce_literal|]. split; [now apply deduce_literal|].
  split; [now apply deduce_literal|].
  split; [apply RandomSeed_literal|].
  rewrite RandomSeed_literal. unfold DeriveSeed.
  now rewrite (Fnv1_c_str str1 str2).
Qed.

(** X8: when the literal is the text of the file name, the two hashes
    cancel and the seed is that of the build stamp and the line alone. *)
Theorem seed_of_file_name_literal (file stamp : list Z) (line : Z) :
  fits file ->
  exists FileName,
    FixedString.deduce (literal file) = Some FileName /\
    RandomSeed FileName FileName line stamp
    = Some (Z.lxor (Fnv1 stamp) (SplitMix64 line)).
Proof.
  intros Hfile. eexists. split; [now apply deduce_literal|].
  rewrite RandomSeed_literal. unfold DeriveSeed.
  now rewrite Z.lxor_nilpotent, Z.lxor_0_l.
Qed.

End Seeds.

(** ** Padding and ciphertext *)

Section Buffers.
Context `{Platform}.

(** X9: the constructor writes nothing beyond index [L], so beyond it the
    buffer [Decrypt] returns holds the xor of what the storage of [m_key]
    and of [m_encBuf] held before: a padding byte of the result is null
    exactly when those two bytes were equal. *)
Theorem Decrypt_padding_is_prior_storage (depth : nat) (str file : list Z)
    (line : Z) (stamp : list Z) (key0 enc0 result0 : nat -> Z) :
  fits str -> fits file -> (length str + 2 <= depth)%nat ->
  exists ctx result,
    XorContext_temporary depth str file line stamp key0 enc0 = Some ctx /\
    Decrypt ctx result0 = Some result /\
    forall i, (length str < i)%nat ->
      Z.of_nat i < round_up 16 (Z.of_nat (length str) + 1) ->
      m_key ctx !! i = Some (int_to_char (key0 i)) /\
      m_encBuf ctx !! i = Some (int_to_char (enc0 i)) /\
      result !! i = Some (Z.lxor (int_to_char (key0 i)) (int_to_char (enc0 i))) /\
      (result !! i = Some 0 <-> int_to_char (key0 i) = int_to_char (enc0 i)).
Proof.
  intros Hstr Hfile Hdepth.
  destruct (XorContext_temporary_spec depth str file line stamp key0 enc0)
    as (ctx & Hctx & _ & _ & _ & Hsized & Hbuf & _ & Hout); try assumption.
  exists ctx, (zip_with Z.lxor (m_key ctx) (m_encBuf ctx)).
  split; [assumption|]. split; [now apply Decrypt_xor|].
  intros i Hi Hlt. rewrite <- Hbuf in Hlt.
  destruct (Hout i Hi Hlt) as [Hk He].
  split; [assumption|]. split; [assumption|].
  rewrite lookup_zip_with, Hk, He. simpl. split; [reflexivity|].
  split.
  - intros Hz. injection Hz as Hz. now apply Z.lxor_eq_0_iff.
  - intros ->. now rewrite Z.lxor_nilpotent.
Qed.

(** X10: in the ciphertext buffer the byte at the terminator's index is the
    key byte itself, and a character is stored unchanged exactly when its
    key byte is 0. *)
Theorem ciphertext_reveals (depth : nat) (str file : list Z) (line : Z)
    (stamp : list Z) (key0 enc0 : nat -> Z) :
  Forall is_char str -> fits str -> fits file -> (length str + 2 <= depth)%nat ->
  exists ctx,
    XorContext_temporary depth str file line stamp key0 enc0 = Some ctx /\
    is_Some (m_key ctx !! length str) /\
    m_encBuf ctx !! length str = m_key ctx !! length str /\
    forall i c k, str !! i = Some c -> m_key ctx !! i = Some k ->
      (m_encBuf ctx !! i = Some c <-> k = 0).
Proof.
  intros Hchars Hstr Hfile Hdepth.
  destruct (XorContext_temporary_spec depth str file line stamp key0 enc0)
    as (ctx & Hctx & _ & _ & _ & _ & _ & Hin & _); try assumption.
  exists ctx. split; [assumption|].
  destruct (Hin (length str)) as [HkL HeL]; [lia|].
  split; [rewrite HkL; eauto|]. split.
  - rewrite HkL, HeL. unfold literal. rewrite list_lookup_middle by reflexivity.
    simpl. unfold enc_byte.
    rewrite xor_chars by (apply RandomChar_is_char || (unfold is_char; lia)).
    now rewrite Z.lxor_0_r.
  - intros i c k Hc Hk.
    assert (i < length str)%nat as Hi by (now apply lookup_lt_Some in Hc).
    destruct (Hin i) as [Hki Hei]; [lia|].
    rewrite Hki in Hk. injection Hk as <-.
    rewrite Hei. unfold literal. rewrite lookup_app_l, Hc by assumption.
    simpl. unfold enc_byte.
    rewrite Forall_lookup in Hchars.
    rewrite xor_chars by (apply RandomChar_is_char || exact (Hchars _ _ Hc)).
    split.
    + intros Heq. injection Heq as Heq.
      apply (f_equal (fun z => Z.lxor z c)) in Heq.
      now rewrite Z.lxor_assoc, Z.lxor_nilpotent, Z.lxor_0_r in Heq.
    + intros ->. now rewrite Z.lxor_0_l.
Qed.

End Buffers.

(** X11: on any context whose members have the length of their type,
    [Decrypt] fills the whole returned buffer, padding included: it has the
    members' length and its byte [i] is [m_key[i] ^ m_encBuf[i]]. *)
Theorem Decrypt_bytes (ctx : XorContext) (result0 : nat -> Z) :
  XorContext_sized ctx ->
  exists result,
    Decrypt ctx result0 = Some result /\
    Z.of_nat (length result) = buffer_size (String ctx) /\
    forall i k e, m_key ctx !! i = Some k -> m_encBuf ctx !! i = Some e ->
      result !! i = Some (Z.lxor k e).
Proof.
  intros Hsized. exists (zip_with Z.lxor (m_key ctx) (m_encBuf ctx)).
  split; [now apply Decrypt_xor|]. destruct Hsized as [Hk He]. split.
  - rewrite length_zip_with. lia.
  - intros i k e Hki Hei. now rewrite lookup_zip_with, Hki, Hei.
Qed.

(** ** Align *)

Lemma lor_pow2_minus_1 val k :
  0 <= k -> Z.lor val (2 ^ k - 1) = val - val mod 2 ^ k + 2 ^ k - 1.
Proof.
  intros Hk. pose proof (Z.add_lor_land val (Z.ones k)) as Hadd.
  rewrite Z.land_ones in Hadd by assumption.
  rewrite Z.ones_equiv in Hadd. unfold Z.pred in Hadd.
  replace (2 ^ k - 1) with (2 ^ k + -1) by lia. lia.
Qed.

(** X12: for an alignment that is a power of two, [Align] returns the least
    multiple of the alignment that is not below its argument, and leaves
    such a multiple unchanged (applying it twice changes nothing more). *)
Theorem Align_power_of_two k val :
  0 <= k < 64 -> 0 <= val -> val + 2 ^ k < 2 ^ 64 ->
  Align (2 ^ k) val mod 2 ^ k = 0 /\
  val <= Align (2 ^ k) val < val + 2 ^ k /\
  Align (2 ^ k) (Align (2 ^ k) val) = Align (2 ^ k) val.
Proof.
  intros Hk Hval Hb.
  assert (0 < 2 ^ k) as Hpos by (apply Z.pow_pos_nonneg; lia).
  assert (0 <= val mod 2 ^ k < 2 ^ k) as Hr by (apply Z.mod_pos_bound; lia).
  assert (Align (2 ^ k) val mod 2 ^ k = 0 /\ val <= Align (2 ^ k) val < val + 2 ^ k)
    as [Hmod Hle].
  { unfold Align.
    destruct (Z.eqb_spec (val mod 2 ^ k) 0) as [Hz|Hnz]; simpl.
    - split; [assumption|lia].
    - rewrite (to_size_t_small (2 ^ k - 1)) by lia.
      rewrite lor_pow2_minus_1 by lia.
      rewrite to_size_t_small by lia.
      split; [|lia].
      replace (val - val mod 2 ^ k + 2 ^ k - 1 + 1)
        with ((val / 2 ^ k + 1) * 2 ^ k).
      + apply Z_mod_mult.
      + pose proof (Z.div_mod val (2 ^ k)). lia. }
  split; [assumption|]. split; [assumption|].
  unfold Align at 1. rewrite Hmod. reflexivity.
Qed.

(** X13: for the fifteen largest values of [size_t] the sum in [Align]
    wraps around: [Align<16>] returns 0, which is below its argument. *)
Theorem Align_wraps val :
  2 ^ 64 - 16 < val < 2 ^ 64 -> Align sizeof_m128 val = 0.
Proof.
  intros Hval. unfold Align, sizeof_m128.
  rewrite (to_size_t_small (16 - 1)) by lia. change (16 - 1) with 15.
  assert (0 <= val mod 16 < 16) by (apply Z.mod_pos_bound; lia).
  destruct (Z.eqb_spec (val mod 16) 0) as [Hz|Hnz]; simpl.
  - exfalso. Z.div_mod_to_equations. lia.
  - rewrite lor_15. unfold to_size_t.
    replace (val - val mod 16 + 15 + 1) with (1 * 2 ^ 64).
    + apply Z_mod_mult.
    + Z.div_mod_to_equations. lia.
Qed.

(** ** constexpr_for *)

Lemma visited_done Start End Inc :
  0 < Inc -> End <= Start -> visited Start End Inc = [].
Proof.
  intros Hinc Hle. unfold visited, ceil_div.
  rewrite seqZ_nil; [reflexivity|].
  assert ((End - Start + Inc - 1) / Inc < 1); [|lia].
  apply Z.div_lt_upper_bound; lia.
Qed.

Lemma ceil_div_step Start End Inc :
  0 < Inc -> Start < End ->
  ceil_div (End - Start) Inc = ceil_div (End - (Start + Inc)) Inc + 1.
Proof.
  intros Hinc Hlt. unfold ceil_div.
  replace (End - Start + Inc - 1) with (End - (Start + Inc) + Inc - 1 + 1 * Inc) by lia.
  now rewrite Z.div_add by lia.
Qed.

Lemma visited_step Start End Inc :
  0 < Inc -> Start < End ->
  visited Start End Inc = Start :: visited (Start + Inc) End Inc.
Proof.
  intros Hinc Hlt. unfold visited.
  rewrite (ceil_div_step Start End Inc) by assumption.
  set (n := ceil_div (End - (Start + Inc)) Inc).
  assert (0 <= n) as Hn by (unfold n, ceil_div; apply Z.div_pos; lia).
  apply list_eq. intros [|i].
  - rewrite list_lookup_fmap, lookup_seqZ_lt by lia. simpl. f_equal. lia.
  - simpl. rewrite !list_lookup_fmap.
    destruct (Z.lt_ge_cases (Z.of_nat i) n) as [Hi|Hi].
    + rewrite !lookup_seqZ_lt by lia. simpl. f_equal. lia.
    + now rewrite !lookup_seqZ_ge by lia.
Qed.

(** X14: with [int] indices that stay within [int], a positive increment
    and a body that always succeeds, [constexpr_for] applies the body once
    to each of [Start], [Start + Inc], ... below [End], in that order, given
    room for one more nested instantiation than there are indices; with
    [End <= Start] it applies it to none. *)
Theorem constexpr_for_visits {St : Type} (g : Z -> St -> St)
    (f : Z -> St -> option St) (End Inc : Z) :
  0 < Inc -> End + Inc <= 2 ^ 31 -> (forall i st, f i st = Some (g i st)) ->
  forall (depth : nat) (Start : Z) (st : St),
  0 <= Start < 2 ^ 31 ->
  Z.of_nat (length (visited Start End Inc)) < Z.of_nat depth ->
  constexpr_for depth Start End Inc f st
  = Some (fold_left (fun st i => g i st) (visited Start End Inc) st).
Proof.
  intros Hinc Hint Hf.
  induction depth as [|depth IH]; intros Start st HStart Hdepth; [lia|].
  simpl. rewrite to_size_t_small by lia.
  destruct (Z.ltb_spec Start End) as [Hlt|Hge].
  - rewrite visited_step in * by assumption. simpl in *.
    rewrite Hf. simpl. apply IH; lia.
  - now rewrite visited_done by assumption.
Qed.

(** X15: with an increment of zero and [0 <= Start < End], [constexpr_for]
    never reaches its end: it instantiates itself with the same [Start]
    again, and no depth yields a result. *)
Theorem constexpr_for_never_ends {St : Type} (f : Z -> St -> option St)
    (Start End : Z) :
  0 <= Start < End -> End <= 2 ^ 64 ->
  forall (depth : nat) (st : St), constexpr_for depth Start End 0 f st = None.
Proof.
  intros HStart HEnd. induction depth as [|depth IH]; intros st; [reflexivity|].
  simpl. rewrite to_size_t_small by lia.
  destruct (Z.ltb_spec Start End) as [_|Hge]; [|lia].
  destruct (f Start st) as [st'|]; simpl; [|reflexivity].
  rewrite Z.add_0_r. apply IH.
Qed.

Lemma to_size_t_negative x : - 2 ^ 64 <= x < 0 -> to_size_t x = x + 2 ^ 64.
Proof.
  intros Hx. unfold to_size_t.
  rewrite <- (Z.mod_add x 1 (2 ^ 64)) by lia.
  apply Z.mod_small. lia.
Qed.

Lemma visited_down_done Start Inc :
  Inc <= Start < 0 -> visited_down Start Inc = [].
Proof.
  intros HS. unfold visited_down.
  rewrite seqZ_nil; [reflexivity|].
  assert (Start / - Inc < 0); [|lia].
  apply Z.div_lt_upper_bound; lia.
Qed.

Lemma visited_down_step Start Inc :
  Inc < 0 -> 0 <= Start ->
  visited_down Start Inc = Start :: visited_down (Start + Inc) Inc.
Proof.
  intros Hinc HS. unfold visited_down.
  replace (Start / - Inc) with ((Start + Inc) / - Inc + 1).
  2:{ replace Start with (Start + Inc + 1 * - Inc) at 2 by lia.
      now rewrite Z.div_add by lia. }
  set (n := (Start + Inc) / - Inc + 1).
  assert (0 <= n) as Hn.
  { unfold n. assert (-1 <= (Start + Inc) / - Inc); [|lia].
    apply Z.div_le_lower_bound; lia. }
  apply list_eq. intros [|i].
  - rewrite list_lookup_fmap, lookup_seqZ_lt by lia. simpl. f_equal. lia.
  - simpl. rewrite !list_lookup_fmap.
    destruct (Z.lt_ge_cases (Z.of_nat i) n) as [Hi|Hi].
    + rewrite !lookup_seqZ_lt by lia. simpl. f_equal. lia.
    + now rewrite !lookup_seqZ_ge by lia.
Qed.

(** X17: with a negative [int] increment, [constexpr_for] ends as soon as
    [Start] has gone below zero, because the comparison with the [size_t]
    [End] converts it to a value near 2^64: for [0 <= Start < End] the body
    is applied to [Start], [Start + Inc], ... as long as they are not
    negative, and then the recursion stops. *)
Theorem constexpr_for_negative_step {St : Type} (g : Z -> St -> St)
    (f : Z -> St -> option St) (End Inc : Z) :
  - 2 ^ 31 <= Inc < 0 -> End <= 2 ^ 64 - 2 ^ 31 ->
  (forall i st, f i st = Some (g i st)) ->
  forall (depth : nat) (Start : Z) (st : St),
  Inc <= Start < End -> Start < 2 ^ 31 ->
  Z.of_nat (length (visited_down Start Inc)) < Z.of_nat depth ->
  constexpr_for depth Start End Inc f st
  = Some (fold_left (fun st i => g i st) (visited_down Start Inc) st).
Proof.
  intros Hinc HEnd Hf.
  induction depth as [|depth IH]; intros Start st HStart Hint Hdepth; [lia|].
  simpl. destruct (Z.lt_ge_cases Start 0) as [Hneg|Hpos].
  - rewrite to_size_t_negative by lia.
    destruct (Z.ltb_spec (Start + 2 ^ 64) End) as [Hlt|_]; [lia|].
    now rewrite visited_down_done by lia.
  - rewrite to_size_t_small by lia.
    destruct (Z.ltb_spec Start End) as [_|Hge]; [|lia].
    rewrite visited_down_step in * by lia. simpl in *.
    rewrite Hf. simpl. apply IH; lia.
Qed.

(** ** FixedString, again *)

(** X16: the constructor copies [N] characters and reads no further: what
    follows them in the source (the source's own terminator included) does
    not reach the buffer, whose last element is the zero it was initialised
    with. *)
Theorem ctor_reads_N_characters (s tail : list Z) :
  fits s ->
  FixedString.ctor (Z.of_nat (length s)) (s ++ tail)
  = Some (FixedString.mk (Z.of_nat (length s)) (s ++ [0])).
Proof.
  unfold fits. intros Hs.
  rewrite ctor_spec by (rewrite ?length_app; lia).
  now rewrite take_app_length.
Qed.

(** ** The further properties at concrete inputs *)

Lemma Random64_invertible_5 :
  Random64_inv (Random64 5) = 5 /\ Random64 (Random64_inv 5) = 5.
Proof. apply Random64_invertible. lia. Defined.

Lemma RandomChar_next_block_3 :
  RandomChar 11779200729735430840 (3 + 8)
  = RandomChar (Random64 11779200729735430840) 3.
Proof. apply RandomChar_next_block; lia. Defined.

Lemma keystream_block_is_state_2 :
  little_endian_to_Z 8 (keystream_block 11779200729735430840 2)
  = Nat.iter (Z.to_nat 2) Random64 11779200729735430840.
Proof. apply keystream_block_is_state; lia. Defined.

Lemma SplitMix64_injective_10_11 :
  0 <= SplitMix64 10 < 2 ^ 64 /\ (SplitMix64 10 = SplitMix64 11 <-> 10 = 11).
Proof. apply SplitMix64_injective; lia. Defined.

Lemma seed_differs_between_lines_hello :
  exists String FileName seed1 seed2,
    FixedString.deduce (literal hello) = Some String /\
    FixedString.deduce (literal a_cpp) = Some FileName /\
    RandomSeed String FileName 10 build_stamp = Some seed1 /\
    RandomSeed String FileName 4000 build_stamp = Some seed2 /\
    seed1 <> seed2.
Proof.
  apply (seed_differs_between_lines hello a_cpp build_stamp 10 4000).
  - apply fits_hello.
  - apply fits_a_cpp.
  - lia.
  - lia.
  - lia.
Defined.

Lemma key_differs_between_lines_hellohello :
  exists ctx1 ctx2,
    XorContext_temporary 12 (hello ++ hello) a_cpp 10 build_stamp stale stale = Some ctx1 /\
    XorContext_temporary 12 (hello ++ hello) a_cpp 4000 build_stamp stale stale = Some ctx2 /\
    take 8 (m_key ctx1) <> take 8 (m_key ctx2) /\
    m_key ctx1 <> m_key ctx2.
Proof.
  apply (key_differs_between_lines 12 (hello ++ hello) a_cpp build_stamp 10 4000
           stale stale stale stale).
  - unfold fits. simpl. lia.
  - apply fits_a_cpp.
  - simpl. lia.
  - simpl. lia.
  - lia.
  - lia.
  - lia.
Defined.

Lemma seed_ignores_text_after_null_a :
  exists String1 String2 FileName seed,
    FixedString.deduce (literal [97; 0; 98]) = Some String1 /\
    FixedString.deduce (literal [97; 0; 99; 100]) = Some String2 /\
    FixedString.deduce (literal a_cpp) = Some FileName /\
    RandomSeed String1 FileName 10 build_stamp = Some seed /\
    RandomSeed String2 FileName 10 build_stamp = Some seed.
Proof.
  apply (seed_ignores_text_after_null [97; 0; 98] [97; 0; 99; 100] a_cpp build_stamp 10).
  - unfold fits. simpl. lia.
  - unfold fits. simpl. lia.
  - apply fits_a_cpp.
  - reflexivity.
Defined.

Lemma seed_of_file_name_literal_a_cpp :
  exists FileName,
    FixedString.deduce (literal a_cpp) = Some FileName /\
    RandomSeed FileName FileName 10 build_stamp
    = Some (Z.lxor (Fnv1 build_stamp) (SplitMix64 10)).
Proof. apply (seed_of_file_name_literal a_cpp build_stamp 10). apply fits_a_cpp. Defined.

Lemma Decrypt_padding_is_prior_storage_hello :
  exists ctx result,
    XorContext_temporary 8 hello a_cpp 10 build_stamp stale (fun _ => 0) = Some ctx /\
    Decrypt ctx stale = Some result /\
    forall i, (length hello < i)%nat ->
      Z.of_nat i < round_up 16 (Z.of_nat (length hello) + 1) ->
      m_key ctx !! i = Some (int_to_char (stale i)) /\
      m_encBuf ctx !! i = Some (int_to_char 0) /\
      result !! i = Some (Z.lxor (int_to_char (stale i)) (int_to_char 0)) /\
      (result !! i = Some 0 <-> int_to_char (stale i) = int_to_char 0).
Proof.
  apply (Decrypt_padding_is_prior_storage 8 hello a_cpp 10 build_stamp
           stale (fun _ => 0) stale).
  - apply fits_hello.
  - apply fits_a_cpp.
  - simpl. lia.
Defined.

Lemma ciphertext_reveals_hello :
  exists ctx,
    XorContext_temporary 8 hello a_cpp 10 build_stamp stale stale = Some ctx /\
    is_Some (m_key ctx !! length hello) /\
    m_encBuf ctx !! length hello = m_key ctx !! length hello /\
    forall i c k, hello !! i = Some c -> m_key ctx !! i = Some k ->
      (m_encBuf ctx !! i = Some c <-> k = 0).
Proof.
  apply (ciphertext_reveals 8 hello a_cpp 10 build_stamp stale stale).
  - apply hello_chars.
  - apply fits_hello.
  - apply fits_a_cpp.
  - simpl. lia.
Defined.

Lemma Decrypt_bytes_hello :
  exists result,
    Decrypt (mkXorContext (FixedString.mk 5 (literal hello))
                          (FixedString.mk 5 (literal a_cpp)) 10
               [184; 2; 231; 161; 167; 32; 1; 2; 3; 4; 5; 6; 7; 8; 9; 10]
               [208; 103; 139; 205; 200; 32; 10; 9; 8; 7; 6; 5; 4; 3; 2; 1])
            stale = Some result /\
    Z.of_nat (length result) = buffer_size (FixedString.mk 5 (literal hello)) /\
    forall i k e,
      [184; 2; 231; 161; 167; 32; 1; 2; 3; 4; 5; 6; 7; 8; 9; 10] !! i = Some k ->
      [208; 103; 139; 205; 200; 32; 10; 9; 8; 7; 6; 5; 4; 3; 2; 1] !! i = Some e ->
      result !! i = Some (Z.lxor k e).
Proof.
  apply (Decrypt_bytes
           (mkXorContext (FixedString.mk 5 (literal hello))
                         (FixedString.mk 5 (literal a_cpp)) 10
              [184; 2; 231; 161; 167; 32; 1; 2; 3; 4; 5; 6; 7; 8; 9; 10]
              [208; 103; 139; 205; 200; 32; 10; 9; 8; 7; 6; 5; 4; 3; 2; 1])
           stale).
  split; vm_compute; reflexivity.
Defined.

Lemma Align_power_of_two_16_6 :
  Align (2 ^ 4) 6 mod 2 ^ 4 = 0 /\
  6 <= Align (2 ^ 4) 6 < 6 + 2 ^ 4 /\
  Align (2 ^ 4) (Align (2 ^ 4) 6) = Align (2 ^ 4) 6.
Proof. apply (Align_power_of_two 4 6); lia. Defined.

Lemma Align_wraps_max : Align sizeof_m128 (2 ^ 64 - 1) = 0.
Proof. apply Align_wraps. lia. Defined.

Lemma constexpr_for_visits_0_10_3 :
  constexpr_for 5 0 10 3 (fun i st => Some (i :: st)) []
  = Some (fold_left (fun st i => i :: st) (visited 0 10 3) []).
Proof.
  apply (constexpr_for_visits (fun i st => i :: st) (fun i st => Some (i :: st)) 10 3).
  - lia.
  - lia.
  - reflexivity.
  - lia.
  - vm_compute. reflexivity.
Defined.

Lemma constexpr_for_never_ends_0 :
  constexpr_for 100 0 6 0 (fun (_ : Z) (st : list Z) => Some st) [] = None.
Proof. apply constexpr_for_never_ends; lia. Defined.

Lemma constexpr_for_negative_step_5 :
  constexpr_for 5 5 6 (-2) (fun i st => Some (i :: st)) []
  = Some (fold_left (fun st i => i :: st) (visited_down 5 (-2)) []).
Proof.
  apply (constexpr_for_negative_step (fun i st => i :: st)
           (fun i st => Some (i :: st)) 6 (-2)).
  - lia.
  - lia.
  - reflexivity.
  - lia.
  - lia.
  - vm_compute. reflexivity.
Defined.

Lemma ctor_reads_N_characters_hello :
  FixedString.ctor (Z.of_nat (length hello)) (hello ++ [33; 33])
  = Some (FixedString.mk (Z.of_nat (length hello)) (hello ++ [0])).
Proof. apply ctor_reads_N_characters. apply fits_hello. Defined.

Lemma RandomSeed_published_hello :
  exists String FileName,
    FixedString.deduce (literal hello) = Some String /\
    FixedString.deduce (literal a_cpp) = Some FileName /\
    RandomSeed String FileName 10 build_stamp
    = Some (DeriveSeed_published hello a_cpp 10 build_stamp).
Proof.
  apply (RandomSeed_published hello a_cpp 10 build_stamp).
  - apply fits_hello.
  - apply fits_a_cpp.
  - apply hello_chars.
  - unfold a_cpp.
    repeat (apply List.Forall_cons; [unfold is_char; lia|]). apply List.Forall_nil.
  - unfold build_stamp.
    repeat (apply List.Forall_cons; [unfold is_char; lia|]). apply List.Forall_nil.
  - right. unfold hello, a_cpp, build_stamp.
    repeat split; repeat (apply List.Forall_cons; [lia|]); apply List.Forall_nil.
Defined.
